(** * The tourist-trip collection of [app/routes.py]

    A shallow embedding of the Flask handlers of [src/app/routes.py]: the
    module-level list [trips] is threaded through every handler as an explicit
    state, a handler returns the HTTP response it builds (or the exception it
    lets escape) together with the new list.

    Conventions of the embedding:
    - a trip is the dictionary built in [create_trip]; it always has exactly
      the six keys ["id"], ["destination"], ["days"], ["price"], ["hotel"],
      ["rating"] ([update_trip] only assigns existing keys), so it is a record
      with six fields, and ["id"] always holds an integer;
    - the other five fields hold whatever JSON scalar the caller sent
      ([update_trip] copies values as they come): [value];
    - a request body is a JSON object, a finite map from keys to values;
    - a finite Python float is the rational number it denotes, which makes
      comparisons, [min], [max] and sorting exact; the infinities and NaN
      are values of their own; an operation that produces a float
      ([float(n)], [+], [/], [round]) rounds its exact result to the nearest
      binary64 number, ties to even, see [round_to_double]; the sign of a
      zero is not represented;
    - JSON arrays and objects as field values are outside the model;
    - turning a string into a number ([int("12")], [float("1.5")]) is a
      parameter of the development, see [PyParse]; so is the way [sum]
      accumulates floats, which differs between Python versions, see
      [PySum]. *)

From Stdlib Require Import Ascii String QArith Qround Lqa.
From stdpp Require Import gmap strings list sorting.

Local Open Scope Z_scope.

(** ** Python values and exceptions *)

Inductive value :=
| VNone
| VBool (b : bool)
| VInt (z : Z)
| VFloat (q : Q)
| VInf (neg : bool)
| VNaN
| VStr (s : string).

#[global] Instance Q_eq_dec : EqDecision Q.
Proof. solve_decision. Defined.
#[global] Instance value_eq_dec : EqDecision value.
Proof. solve_decision. Defined.

Inductive exn := TypeError | ValueError | KeyError | OverflowError.

(** The outcome of evaluating a Python expression: a value or a raised
    exception. *)
Inductive res (A : Type) :=
| Ok (a : A)
| Raise (e : exn).
Arguments Ok {A} a.
Arguments Raise {A} e.

Definition bind {A B} (m : res A) (k : A → res B) : res B :=
  match m with
  | Ok a => k a
  | Raise e => Raise e
  end.

Notation "x <- m ;; k" := (bind m (fun x => k))
  (at level 100, m at next level, right associativity).

(** A Python float: a finite binary64 number as the rational it denotes, an
    infinity, or NaN. *)
Inductive pyfloat :=
| FFin (q : Q)
| FInf (neg : bool)
| FNaN.

(** ** Trips, request bodies, responses *)

Record trip := Trip {
  id : Z;
  destination : value;
  days : value;
  price : value;
  hotel : value;
  rating : value
}.

(** The JSON object of a request body. *)
Abbreviation payload := (gmap string value).

Record field_stats := FieldStats {
  st_min : value;
  st_max : value;
  st_avg : pyfloat
}.

Record stats := Stats {
  stats_days : field_stats;
  stats_price : field_stats;
  stats_rating : field_stats
}.

(** What [jsonify] is given. *)
Inductive body :=
| BTrips (l : list trip)
| BTrip (t : trip)
| BError (msg : string)
| BMessage (msg : string)
| BStats (s : stats).

(** A handler returns a body with a status code, or lets an exception
    escape (Flask then answers 500). *)
Inductive response :=
| Resp (status : Z) (b : body)
| Unhandled (e : exn).

Definition msg_not_found : string := "Поездка не найдена".
Definition msg_bad_json : string := "Некорректный JSON".
Definition msg_missing : string := "Отсутствует поле: ".
Definition msg_no_data : string := "Нет данных".
Definition msg_deleted : string := "Поездка удалена".

(** ** Built-in operations on values *)

(** Rounding to the nearest integer, ties to even. *)
Definition round_half_even (q : Q) : Z :=
  let f := Qfloor q in
  let r := (q - inject_Z f)%Q in
  match (r ?= 1 # 2)%Q with
  | Lt => f
  | Gt => f + 1
  | Eq => if Z.even f then f else f + 1
  end.

(** [2 ^ e] for an integer [e] *)
Definition Qpow2 (e : Z) : Q :=
  if 0 <=? e then inject_Z (2 ^ e) else 1 # Z.to_pos (2 ^ (- e)).

(** The integer part of the binary logarithm of a positive rational. *)
Definition Qlog2 (q : Q) : Z :=
  let k := Z.log2 (Qnum q) - Z.log2 (Z.pos (Qden q)) in
  if Qle_bool (Qpow2 k) q then k else k - 1.

(** The binary64 number nearest to a positive rational, ties to even: 53
    bits of mantissa, exponents down to that of the subnormal numbers, and
    the infinity from [2 ^ 1024] on. *)
Definition round_pos (q : Q) : pyfloat :=
  let e := Z.max (Qlog2 q - 52) (-1074) in
  let m := round_half_even (q / Qpow2 e) in
  if 2 ^ 1024 <=? m * 2 ^ e then FInf false
  else FFin (Qred (inject_Z m * Qpow2 e)).

(** The rounding every float operation applies to its exact result. *)
Definition round_to_double (q : Q) : pyfloat :=
  match Qnum q with
  | 0 => FFin 0
  | Z.pos _ => round_pos q
  | Z.neg _ =>
      match round_pos (- q) with
      | FFin r => FFin (- r)
      | _ => FInf true
      end
  end.

(** [float(n)] for an integer: [OverflowError] beyond the range. *)
Definition float_of_Z (z : Z) : res pyfloat :=
  match round_to_double (inject_Z z) with
  | FFin q => Ok (FFin q)
  | _ => Raise OverflowError
  end.

(** The sum of two floats. *)
Definition fl_add (a b : pyfloat) : pyfloat :=
  match a, b with
  | FNaN, _ | _, FNaN => FNaN
  | FInf s, FInf t => if Bool.eqb s t then FInf s else FNaN
  | FInf s, FFin _ | FFin _, FInf s => FInf s
  | FFin x, FFin y => round_to_double (x + y)
  end.

(** A float divided by a positive count. *)
Definition fl_div (a : pyfloat) (n : Z) : pyfloat :=
  match a with
  | FFin x => round_to_double (x / inject_Z n)
  | _ => a
  end.

(** [a / n] for integers, [n] positive: [OverflowError] when the quotient
    is beyond the range of the floats. *)
Definition int_truediv (a n : Z) : res pyfloat :=
  match round_to_double (inject_Z a / inject_Z n) with
  | FFin q => Ok (FFin q)
  | _ => Raise OverflowError
  end.

(** [round(x, 2)]: the float nearest to the decimal with two places nearest
    to [x], ties to even; an infinity and NaN round to themselves. *)
Definition py_round2 (x : pyfloat) : pyfloat :=
  match x with
  | FFin q => round_to_double (round_half_even (q * 100) # 100)
  | _ => x
  end.

(** The float as a field value, and back. *)
Definition value_of_float (f : pyfloat) : value :=
  match f with
  | FFin q => VFloat q
  | FInf s => VInf s
  | FNaN => VNaN
  end.

(** Python's [int(str)] and [float(str)]: the literal grammar is not part of
    the repository, the development is parametric in it. [None] stands for
    [ValueError]. *)
Class PyParse := {
  int_of_str : string → option Z;
  float_of_str : string → option pyfloat
}.

(** The number a finite numeric value denotes ([bool] is a subtype of
    [int]). *)
Definition num_val (v : value) : option Q :=
  match v with
  | VBool b => Some (if b then 1%Q else 0%Q)
  | VInt z => Some (inject_Z z)
  | VFloat q => Some q
  | _ => None
  end.

(** A number as the comparisons see it: integers are not rounded. *)
Definition float_val (v : value) : option pyfloat :=
  match v with
  | VInf s => Some (FInf s)
  | VNaN => Some FNaN
  | _ => FFin <$> num_val v
  end.

Definition Qltb (a b : Q) : bool := negb (Qle_bool b a).

(** [a < b] on numbers: false as soon as one is NaN. *)
Definition fl_ltb (a b : pyfloat) : bool :=
  match a, b with
  | FNaN, _ | _, FNaN => false
  | FFin x, FFin y => Qltb x y
  | FInf s, FInf t => s && negb t
  | FInf s, FFin _ => s
  | FFin _, FInf t => negb t
  end.

(** [int(x)] truncates a float towards zero. *)
Definition Qtruncate (q : Q) : Z :=
  if Qle_bool 0 q then Qfloor q else Qceiling q.

Section builtins.
Context {P : PyParse}.

(** [int(v)] *)
Definition py_int (v : value) : res Z :=
  match v with
  | VNone => Raise TypeError
  | VBool b => Ok (if b then 1 else 0)
  | VInt z => Ok z
  | VFloat q => Ok (Qtruncate q)
  | VInf _ => Raise OverflowError
  | VNaN => Raise ValueError
  | VStr s =>
      match int_of_str s with
      | Some z => Ok z
      | None => Raise ValueError
      end
  end.

(** [float(v)] *)
Definition py_float (v : value) : res pyfloat :=
  match v with
  | VNone => Raise TypeError
  | VBool b => Ok (FFin (if b then 1%Q else 0%Q))
  | VInt z => float_of_Z z
  | VFloat q => Ok (FFin q)
  | VInf s => Ok (FInf s)
  | VNaN => Ok FNaN
  | VStr s =>
      match float_of_str s with
      | Some f => Ok f
      | None => Raise ValueError
      end
  end.
End builtins.

(** [a < b]: numbers compare by value, strings lexicographically, anything
    else raises [TypeError] (also [None < None]). *)
Definition py_lt (a b : value) : res bool :=
  match a, b with
  | VStr s, VStr t => Ok (String.ltb s t)
  | _, _ =>
      match float_val a, float_val b with
      | Some x, Some y => Ok (fl_ltb x y)
      | _, _ => Raise TypeError
      end
  end.

(** [min(l)] of a non-empty list: keep the first smallest element. *)
Fixpoint py_min_from (cur : value) (l : list value) : res value :=
  match l with
  | [] => Ok cur
  | item :: l' =>
      b <- py_lt item cur ;;
      py_min_from (if b then item else cur) l'
  end.

(** [max(l)] of a non-empty list: keep the first largest element; the
    test [item > cur] is [cur < item] on these values. *)
Fixpoint py_max_from (cur : value) (l : list value) : res value :=
  match l with
  | [] => Ok cur
  | item :: l' =>
      b <- py_lt cur item ;;
      py_max_from (if b then item else cur) l'
  end.

Definition py_min (l : list value) : res value :=
  match l with
  | [] => Raise ValueError
  | x :: l' => py_min_from x l'
  end.

Definition py_max (l : list value) : res value :=
  match l with
  | [] => Raise ValueError
  | x :: l' => py_max_from x l'
  end.

(** What [sum] adds: an integer (or a bool) or a float. *)
Inductive number :=
| NInt (z : Z)
| NFloat (f : pyfloat).

Definition as_number (v : value) : option number :=
  match v with
  | VBool b => Some (NInt (if b then 1 else 0))
  | VInt z => Some (NInt z)
  | VFloat q => Some (NFloat (FFin q))
  | VInf s => Some (NFloat (FInf s))
  | VNaN => Some (NFloat FNaN)
  | _ => None
  end.

(** The result of [sum]: an integer as long as every item is one. *)
Inductive total :=
| TInt (z : Z)
| TFloat (f : pyfloat).

(** How [sum] adds up numbers of which one at least is a float: with plain
    additions up to Python 3.11, with a compensated summation since. The
    float total of the numbers is a parameter ([float_total] is only asked
    for it when every integer among them fits a float). *)
Class PySum := {
  float_total : list number → pyfloat
}.

(** [sum] once its total is a float: adding an item that is no number
    raises [TypeError], adding an integer too large for a float
    [OverflowError]. *)
Fixpoint float_phase (l : list value) : res unit :=
  match l with
  | [] => Ok tt
  | v :: l' =>
      match as_number v with
      | None => Raise TypeError
      | Some (NInt z) => _ <- float_of_Z z ;; float_phase l'
      | Some (NFloat _) => float_phase l'
      end
  end.

(** [sum] while its total is an integer, kept exact: [Some] of the total
    when every item is an integer; the first float turns the total into a
    float. *)
Fixpoint int_phase (acc : Z) (l : list value) : res (option Z) :=
  match l with
  | [] => Ok (Some acc)
  | v :: l' =>
      match as_number v with
      | None => Raise TypeError
      | Some (NInt z) => int_phase (acc + z) l'
      | Some (NFloat _) =>
          _ <- float_of_Z acc ;; _ <- float_phase l' ;; Ok None
      end
  end.

Section py_sum.
Context {S : PySum}.

(** [sum(l)]: the total starts at the integer 0. *)
Definition py_sum (l : list value) : res total :=
  r <- int_phase 0 l ;;
  match r with
  | Some z => Ok (TInt z)
  | None => Ok (TFloat (float_total (omap as_number l)))
  end.
End py_sum.

(** [t / n] for a positive count [n] *)
Definition py_truediv (t : total) (n : Z) : res pyfloat :=
  match t with
  | TInt z => int_truediv z n
  | TFloat f => Ok (fl_div f n)
  end.

(** [d[k]] on a request body *)
Definition py_getitem (d : payload) (k : string) : res value :=
  match d !! k with
  | Some v => Ok v
  | None => Raise KeyError
  end.

(** [str.lower()]. Only the test [order == "desc"] reads its result, and no
    character outside ASCII lowers to one of [d], [e], [s], [c]: lowering the
    ASCII capitals is enough. *)
Definition ascii_lower (c : ascii) : ascii :=
  let n := N_of_ascii c in
  if ((65 <=? n) && (n <=? 90))%N then ascii_of_N (n + 32) else c.

Fixpoint lower (s : string) : string :=
  match s with
  | EmptyString => EmptyString
  | String c s' => String (ascii_lower c) (lower s')
  end.

(** ** [list.sort(key=..., reverse=...)]

    Python specifies [list.sort] as a stable sort that compares keys with [<]
    only and lets an exception of a comparison escape. The embedding is the
    insertion sort with these properties; [reverse=True] is, as in CPython,
    reversing the list, sorting it, and reversing the result. With NaN
    among the keys [<] is no order and the list Python answers depends on
    its algorithm: nothing below is said about the order in that case. *)
Section py_sort.
Context {A : Type} (key : A → value).

(** [x] stood before every element of the sorted [l]: it goes before the
    first element that is not smaller. *)
Fixpoint sort_insert (x : A) (l : list A) : res (list A) :=
  match l with
  | [] => Ok [x]
  | y :: l' =>
      b <- py_lt (key y) (key x) ;;
      if b then (r <- sort_insert x l' ;; Ok (y :: r))
      else Ok (x :: y :: l')
  end.

Fixpoint sort_asc (l : list A) : res (list A) :=
  match l with
  | [] => Ok []
  | x :: l' => s <- sort_asc l' ;; sort_insert x s
  end.

Definition py_sort (reversed : bool) (l : list A) : res (list A) :=
  if reversed then (s <- sort_asc (reverse l) ;; Ok (reverse s))
  else sort_asc l.
End py_sort.

(** ** The handlers *)

Definition trip_fields : list string :=
  ["id"; "destination"; "days"; "price"; "hotel"; "rating"].

(** [t.get(field)], with [None] for a key the dictionary does not have *)
Definition trip_get (field : string) (t : trip) : option value :=
  if decide (field = "id") then Some (VInt (id t))
  else if decide (field = "destination") then Some (destination t)
  else if decide (field = "days") then Some (days t)
  else if decide (field = "price") then Some (price t)
  else if decide (field = "hotel") then Some (hotel t)
  else if decide (field = "rating") then Some (rating t)
  else None.

(** [t[field] = v] for one of the five keys [update_trip] assigns *)
Definition set_field (field : string) (v : value) (t : trip) : trip :=
  if decide (field = "destination") then
    Trip (id t) v (days t) (price t) (hotel t) (rating t)
  else if decide (field = "days") then
    Trip (id t) (destination t) v (price t) (hotel t) (rating t)
  else if decide (field = "price") then
    Trip (id t) (destination t) (days t) v (hotel t) (rating t)
  else if decide (field = "hotel") then
    Trip (id t) (destination t) (days t) (price t) v (rating t)
  else if decide (field = "rating") then
    Trip (id t) (destination t) (days t) (price t) (hotel t) v
  else t.

Definition _get_next_id (trips : list trip) : Z :=
  match trips with
  | [] => 1
  | t :: ts => foldl Z.max (id t) (id <$> ts) + 1
  end.

Definition get_trips (trips : list trip) (sort order : option string)
  : response :=
  let order := lower (default "asc" order) in
  let data := trips in
  match sort, data with
  | Some sort, t0 :: _ =>
      if negb (String.eqb sort "") && bool_decide (is_Some (trip_get sort t0))
      then
        match py_sort (λ x, default VNone (trip_get sort x))
                      (String.eqb order "desc") data with
        | Ok data => Resp 200 (BTrips data)
        | Raise e => Unhandled e
        end
      else Resp 200 (BTrips data)
  | _, _ => Resp 200 (BTrips data)
  end.

Definition get_trip (trips : list trip) (trip_id : Z) : response :=
  match find (λ t, id t =? trip_id) trips with
  | None => Resp 404 (BError msg_not_found)
  | Some trip => Resp 200 (BTrip trip)
  end.

Definition required : list string :=
  ["destination"; "days"; "price"; "hotel"; "rating"].

(** The loop [for field in required: if field not in data: return ...] *)
Fixpoint first_missing (data : payload) (fields : list string)
  : option string :=
  match fields with
  | [] => None
  | field :: rest =>
      match data !! field with
      | None => Some field
      | Some _ => first_missing data rest
      end
  end.

Section create.
Context {P : PyParse}.

(** The dictionary literal of [create_trip], evaluated key by key. *)
Definition new_trip (trips : list trip) (data : payload) : res trip :=
  let i := _get_next_id trips in
  dest <- py_getitem data "destination" ;;
  dv <- py_getitem data "days" ;;
  d <- py_int dv ;;
  pv <- py_getitem data "price" ;;
  p <- py_float pv ;;
  h <- py_getitem data "hotel" ;;
  rv <- py_getitem data "rating" ;;
  r <- py_float rv ;;
  Ok (Trip i dest (VInt d) (value_of_float p) h (value_of_float r)).

Definition create_trip (trips : list trip) (data : payload)
  : response * list trip :=
  if decide (data = ∅) then (Resp 400 (BError msg_bad_json), trips)
  else
    match first_missing data required with
    | Some field => (Resp 400 (BError (msg_missing +:+ field)), trips)
    | None =>
        match new_trip trips data with
        | Ok t => (Resp 201 (BTrip t), trips ++ [t])
        | Raise e => (Unhandled e, trips)
        end
    end.
End create.

(** [trip] is the very dictionary stored in the list, so assigning its keys
    changes the list element: the first trip that satisfies [p]. *)
Fixpoint modify_first (p : trip → bool) (f : trip → trip) (l : list trip)
  : list trip :=
  match l with
  | [] => []
  | t :: l' => if p t then f t :: l' else t :: modify_first p f l'
  end.

Definition updatable : list string :=
  ["destination"; "days"; "price"; "hotel"; "rating"].

Definition update_fields (data : payload) (t : trip) : trip :=
  foldl (λ t field,
           match data !! field with
           | Some v => set_field field v t
           | None => t
           end) t updatable.

Definition update_trip (trips : list trip) (trip_id : Z) (data : payload)
  : response * list trip :=
  match find (λ t, id t =? trip_id) trips with
  | None => (Resp 404 (BError msg_not_found), trips)
  | Some trip =>
      (Resp 200 (BTrip (update_fields data trip)),
       modify_first (λ t, id t =? trip_id) (update_fields data) trips)
  end.

Definition delete_trip (trips : list trip) (trip_id : Z)
  : response * list trip :=
  let before := length trips in
  let trips := filter (λ t, id t ≠ trip_id) trips in
  if (length trips =? before)%nat
  then (Resp 404 (BError msg_not_found), trips)
  else (Resp 200 (BMessage msg_deleted), trips).

Section stats.
Context {S : PySum}.

(** One entry of the [stats] dictionary: [min], [max], then the average. *)
Definition field_stat (l : list value) : res field_stats :=
  mn <- py_min l ;;
  mx <- py_max l ;;
  s <- py_sum l ;;
  q <- py_truediv s (Z.of_nat (length l)) ;;
  Ok (FieldStats mn mx (py_round2 q)).

Definition trips_stats (trips : list trip) : response :=
  match trips with
  | [] => Resp 400 (BError msg_no_data)
  | _ =>
      match
        (d <- field_stat (days <$> trips) ;;
         p <- field_stat (price <$> trips) ;;
         r <- field_stat (rating <$> trips) ;;
         Ok (Stats d p r))
      with
      | Ok s => Resp 200 (BStats s)
      | Raise e => Unhandled e
      end
  end.
End stats.

(** ** Reading the responses

    The error kinds of the specification, as responses: ValidationError and
    NoData are the 400 answers, NotFound the 404 answer; an exception that
    escapes a handler is none of them. *)
Definition ValidationError (r : response) : Prop :=
  ∃ msg, r = Resp 400 (BError msg).

(** The message contains the field name. *)
Definition mentions (msg field : string) : Prop :=
  is_Some (index 0 field msg).

(** ** Reading the results of [trips_stats] and [get_trips] *)

(** The value is a (finite) number. *)
Definition numeric (v : value) : Prop := is_Some (num_val v).

#[global] Instance numeric_dec (v : value) : Decision (numeric v).
Proof. unfold numeric. apply _. Defined.

Definition is_str (v : value) : Prop := ∃ s, v = VStr s.

(** The order of the values: numbers by value, strings lexicographically. *)
Definition val_le (a b : value) : Prop :=
  match a, b with
  | VStr s, VStr t => String.leb s t = true
  | _, _ =>
      match num_val a, num_val b with
      | Some x, Some y => (x <= y)%Q
      | _, _ => False
      end
  end.

(** Equal sort keys: Python's [==]. *)
Definition val_eqb (a b : value) : bool :=
  match a, b with
  | VStr s, VStr t => String.eqb s t
  | VNone, VNone => true
  | VInf s, VInf t => Bool.eqb s t
  | _, _ =>
      match num_val a, num_val b with
      | Some x, Some y => Qeq_bool x y
      | _, _ => false
      end
  end.




(** The value is a number: [sum] can add it. *)
Definition is_number (v : value) : Prop := is_Some (as_number v).

#[global] Instance is_number_dec (v : value) : Decision (is_number v).
Proof. unfold is_number. apply _. Defined.

(** The key [get_trips] sorts by: [x.get(sort)]. *)
Definition sort_key (sort : string) (x : trip) : value :=
  default VNone (trip_get sort x).

(** [y] does not compare smaller than [x]. *)
Definition not_after {A : Type} (key : A → value) (x y : A) : Prop :=
  py_lt (key y) (key x) = Ok false.

(** [p] selects elements whose keys, when in [dom], are not ordered by [<]:
    elements with equal keys. *)
Definition ties {A : Type} (key : A → value) (dom : value → Prop)
    (p : A → Prop) : Prop :=
  ∀ x y, dom (key x) → dom (key y) → p x → p y →
    py_lt (key y) (key x) = Ok false.

(** The request asks for the descending order. *)
Definition descending (order : option string) : bool :=
  String.eqb (lower (default "asc" order)) "desc".

Definition ascending_by (sort : string) (a b : trip) : Prop :=
  val_le (sort_key sort a) (sort_key sort b).

Definition descending_by (sort : string) (a b : trip) : Prop :=
  val_le (sort_key sort b) (sort_key sort a).

(** The trip has a sort key equal to [k]. *)
Definition same_key (sort : string) (k : value) (t : trip) : Prop :=
  val_eqb k (sort_key sort t) = true.

#[global] Instance same_key_dec (sort : string) (k : value) (t : trip) :
  Decision (same_key sort k t).
Proof. unfold same_key. apply _. Defined.

(** ** A parser instance for concrete runs

    The plain decimal literals: an optional minus sign and ASCII digits, for
    [float] optionally followed by a point and more digits. Python accepts
    more (blanks, underscores, exponents); every string used below
    is either of this form or no number at all. *)
Fixpoint digits_val (acc : Z) (s : string) : option Z :=
  match s with
  | EmptyString => Some acc
  | String c s' =>
      let n := Z.of_N (N_of_ascii c) in
      if (48 <=? n) && (n <=? 57) then digits_val (10 * acc + (n - 48)) s'
      else None
  end.

Definition unsigned_int (s : string) : option Z :=
  match s with
  | EmptyString => None
  | _ => digits_val 0 s
  end.

Definition decimal_int (s : string) : option Z :=
  match s with
  | String "-" s' => Z.opp <$> unsigned_int s'
  | _ => unsigned_int s
  end.

Fixpoint split_point (s : string) : string * option string :=
  match s with
  | EmptyString => (EmptyString, None)
  | String "." s' => (EmptyString, Some s')
  | String c s' => let '(a, b) := split_point s' in (String c a, b)
  end.

Definition unsigned_float (s : string) : option Q :=
  match split_point s with
  | (a, None) => inject_Z <$> unsigned_int a
  | (a, Some b) =>
      match unsigned_int a, unsigned_int b with
      | Some x, Some y =>
          Some (Qred (inject_Z x
                      + (y # Pos.of_nat (10 ^ String.length b)%nat)))
      | _, _ => None
      end
  end.

Definition decimal_float (s : string) : option Q :=
  match s with
  | String "-" s' => Qopp <$> unsigned_float s'
  | _ => unsigned_float s
  end.

Definition plain_decimal : PyParse :=
  {| int_of_str := decimal_int;
     float_of_str := λ s, round_to_double <$> decimal_float s |}.

(** ** The summation of Python 3.11 for concrete runs

    Plain additions from left to right; the total is an integer until the
    first float. *)
Definition plain_add (t : total) (n : number) : total :=
  match t, n with
  | TInt a, NInt z => TInt (a + z)
  | TInt a, NFloat x => TFloat (fl_add (round_to_double (inject_Z a)) x)
  | TFloat f, NInt z => TFloat (fl_add f (round_to_double (inject_Z z)))
  | TFloat f, NFloat x => TFloat (fl_add f x)
  end.

Definition plain_total (l : list number) : pyfloat :=
  match foldl plain_add (TInt 0) l with
  | TInt z => round_to_double (inject_Z z)
  | TFloat f => f
  end.

Definition plain_sum : PySum := {| float_total := plain_total |}.

(** ** The states the handlers can produce *)

Section reachable.
Context {P : PyParse}.

Inductive reachable : list trip → Prop :=
| reach_start : reachable []
| reach_create trips data :
    reachable trips → reachable (create_trip trips data).2
| reach_update trips trip_id data :
    reachable trips → reachable (update_trip trips trip_id data).2
| reach_delete trips trip_id :
    reachable trips → reachable (delete_trip trips trip_id).2.
End reachable.

(** The invariant of the data model: ids are unique and positive. *)
Definition ids_ok (trips : list trip) : Prop :=
  NoDup (id <$> trips) ∧ Forall (λ i, 1 ≤ i) (id <$> trips).

(** ** Sample data *)

Definition paris : payload :=
  {[ "destination" := VStr "Paris"; "days" := VInt 3;
     "price" := VFloat 500; "hotel" := VStr "Ritz";
     "rating" := VFloat (9 # 2) ]}.

Definition rome : payload :=
  {[ "destination" := VStr "Rome"; "days" := VInt 5;
     "price" := VFloat 300; "hotel" := VStr "Hilton";
     "rating" := VFloat 4 ]}.

Definition trip_paris (i : Z) : trip :=
  Trip i (VStr "Paris") (VInt 3) (VFloat 500) (VStr "Ritz") (VFloat (9 # 2)).

Definition trip_rome (i : Z) : trip :=
  Trip i (VStr "Rome") (VInt 5) (VFloat 300) (VStr "Hilton") (VFloat 4).

(** A body with all five fields, whose [days] is JSON [null] *)
Definition null_days : payload := <[ "days" := VNone ]> paris.


(** A body whose [destination] is JSON [null] *)
Definition null_destination : payload := <[ "destination" := VNone ]> paris.

(** A body without [hotel] *)
Definition no_hotel : payload := delete "hotel" paris.

(** An update that sends a new price and tries to send a new id *)
Definition new_price : payload :=
  {[ "id" := VInt 9; "price" := VFloat 250 ]}.

Definition trip_oslo (i : Z) : trip :=
  Trip i (VStr "Oslo") (VInt 7) (VFloat 700) (VStr "Grand") (VFloat 4).

(** Trips of 3, 5 and 7 days *)
Definition three_trips : list trip := [trip_paris 1; trip_rome 2; trip_oslo 3].

(** Two trips created from [null_destination] *)
Definition null_trips : list trip :=
  [Trip 1 VNone (VInt 3) (VFloat 500) (VStr "Ritz") (VFloat (9 # 2));
   Trip 2 VNone (VInt 3) (VFloat 500) (VStr "Ritz") (VFloat (9 # 2))].

(** Paris, and a trip whose rating was updated to [null] *)
Definition null_trips_rating : list trip :=
  [trip_paris 1;
   Trip 2 (VStr "Rome") (VInt 5) (VFloat 300) (VStr "Hilton") VNone].

(** Paris, then Rome *)
Definition two_trips : list trip := [trip_paris 1; trip_rome 2].

(** Three trips created, the second one deleted *)
Definition gap_trips : list trip := [trip_paris 1; trip_paris 3].

(** ** Facts about the helpers *)

Lemma foldl_max_ge (a : Z) (l : list Z) :
  a ≤ foldl Z.max a l ∧ Forall (λ i, i ≤ foldl Z.max a l) l.
Proof.
  revert a. induction l as [|x l IH]; intros a; simpl.
  - split; [lia | constructor].
  - destruct (IH (Z.max a x)) as [H1 H2]. split; [lia |].
    constructor; [lia | exact H2].
Qed.

Lemma foldl_max_elem (a : Z) (l : list Z) : foldl Z.max a l ∈ a :: l.
Proof.
  revert a. induction l as [|x l IH]; intros a; simpl.
  - left.
  - specialize (IH (Z.max a x)).
    apply elem_of_cons in IH as [IH | IH].
    + rewrite IH. destruct (Z.max_spec a x) as [[_ ->] | [_ ->]].
      * right. left.
      * left.
    + right. right. exact IH.
Qed.

(** [_get_next_id] is above every id of the list, and positive. *)
Lemma next_id_above (trips : list trip) :
  Forall (λ i, i < _get_next_id trips) (id <$> trips).
Proof.
  destruct trips as [|t ts]; [constructor |].
  unfold _get_next_id. destruct (foldl_max_ge (id t) (id <$> ts)) as [H1 H2].
  rewrite fmap_cons. constructor; [lia |].
  eapply Forall_impl; [exact H2 |]. simpl. intros; lia.
Qed.

Lemma next_id_positive (trips : list trip) :
  Forall (λ i, 1 ≤ i) (id <$> trips) → 1 ≤ _get_next_id trips.
Proof.
  destruct trips as [|t ts]; simpl; [lia |].
  intros H. apply Forall_cons in H as [H _].
  destruct (foldl_max_ge (id t) (id <$> ts)) as [H1 _]. lia.
Qed.

Lemma find_id_None (trips : list trip) (i : Z) :
  i ∉ id <$> trips → find (λ t, id t =? i) trips = None.
Proof.
  induction trips as [|t ts IH]; simpl; [done |].
  intros H. apply not_elem_of_cons in H as [H1 H2].
  destruct (Z.eqb_spec (id t) i); [congruence | auto].
Qed.

Lemma find_id_Some (trips : list trip) (i : Z) :
  i ∈ id <$> trips →
  ∃ l1 t l2, trips = l1 ++ t :: l2 ∧ id t = i ∧ (i ∉ id <$> l1) ∧
    find (λ t, id t =? i) trips = Some t.
Proof.
  induction trips as [|t ts IH]; simpl.
  - intros H. by apply elem_of_nil in H.
  - intros H. destruct (Z.eqb_spec (id t) i) as [Heq | Hne].
    + exists [], t, ts. repeat split; try done. apply not_elem_of_nil.
    + apply elem_of_cons in H as [H | H]; [congruence |].
      destruct (IH H) as (l1 & t' & l2 & -> & Hid & Hl1 & Hf).
      exists (t :: l1), t', l2. repeat split; try done.
      rewrite fmap_cons. apply not_elem_of_cons. split; [congruence | done].
Qed.

Lemma modify_first_split (i : Z) (f : trip → trip) (l1 l2 : list trip)
    (t : trip) :
  i ∉ id <$> l1 → id t = i →
  modify_first (λ t, id t =? i) f (l1 ++ t :: l2) = l1 ++ f t :: l2.
Proof.
  intros Hl1 Hid. induction l1 as [|x l1 IH]; simpl.
  - by rewrite Hid, Z.eqb_refl.
  - rewrite fmap_cons in Hl1. apply not_elem_of_cons in Hl1 as [H1 H2].
    destruct (Z.eqb_spec (id x) i); [congruence |]. by rewrite IH.
Qed.

Lemma set_field_id (field : string) (v : value) (t : trip) :
  id (set_field field v t) = id t.
Proof. unfold set_field. repeat case_decide; reflexivity. Qed.

Lemma update_fields_unfold (data : payload) (t : trip) :
  update_fields data t =
  Trip (id t)
       (default (destination t) (data !! "destination"))
       (default (days t) (data !! "days"))
       (default (price t) (data !! "price"))
       (default (hotel t) (data !! "hotel"))
       (default (rating t) (data !! "rating")).
Proof.
  unfold update_fields, updatable. simpl.
  destruct (data !! "destination"), (data !! "days"), (data !! "price"),
    (data !! "hotel"), (data !! "rating"); destruct t; reflexivity.
Qed.

Lemma modify_first_ids (p : trip → bool) (f : trip → trip) (l : list trip) :
  (∀ t, id (f t) = id t) → id <$> modify_first p f l = id <$> l.
Proof.
  intros Hf. induction l as [|t l IH]; [done |].
  cbn [modify_first]. destruct (p t); rewrite !fmap_cons; [by rewrite Hf |].
  by rewrite IH.
Qed.

Lemma filter_id_absent (trips : list trip) (i : Z) :
  i ∉ id <$> trips → filter (λ t, id t ≠ i) trips = trips.
Proof.
  induction trips as [|t ts IH]; [done |].
  rewrite fmap_cons. intros H. apply not_elem_of_cons in H as [H1 H2].
  rewrite filter_cons_True by congruence. by rewrite IH.
Qed.

Lemma first_missing_None (data : payload) (fields : list string) :
  first_missing data fields = None ↔ ∀ f, f ∈ fields → is_Some (data !! f).
Proof.
  induction fields as [|f fs IH]; simpl.
  - split; [intros _ f H; by apply elem_of_nil in H | done].
  - destruct (data !! f) as [v|] eqn:E.
    + rewrite IH. split.
      * intros H g Hg. apply elem_of_cons in Hg as [-> | Hg]; eauto.
      * intros H g Hg. apply H. by right.
    + split; [done |]. intros H. destruct (H f) as [v Hv]; [left |].
      congruence.
Qed.

Lemma first_missing_Some (data : payload) (fields : list string) (f : string) :
  first_missing data fields = Some f →
  ∃ l1 l2, fields = l1 ++ f :: l2 ∧
           Forall (λ g, is_Some (data !! g)) l1 ∧ data !! f = None.
Proof.
  induction fields as [|g fs IH]; simpl; [done |].
  destruct (data !! g) as [v|] eqn:E.
  - intros H. destruct (IH H) as (l1 & l2 & -> & Hl1 & Hf).
    exists (g :: l1), l2. split; [done |]. split; [|done].
    constructor; [by exists v | done].
  - intros [= <-]. exists [], fs. split; [done |]. split; [constructor | done].
Qed.

Section handlers.
Context {P : PyParse}.

(** When the dictionary literal of [create_trip] evaluates, it is this
    record. *)
Lemma new_trip_Ok (trips : list trip) (data : payload) (t : trip) :
  new_trip trips data = Ok t ↔
  ∃ dest dv d pv p h rv r,
    data !! "destination" = Some dest ∧ data !! "days" = Some dv ∧
    data !! "price" = Some pv ∧ data !! "hotel" = Some h ∧
    data !! "rating" = Some rv ∧
    py_int dv = Ok d ∧ py_float pv = Ok p ∧ py_float rv = Ok r ∧
    t = Trip (_get_next_id trips) dest (VInt d) (value_of_float p) h
          (value_of_float r).
Proof.
  unfold new_trip, py_getitem. split.
  - destruct (data !! "destination") as [dest|]; [|done].
    destruct (data !! "days") as [dv|]; [|done]. simpl.
    destruct (py_int dv) as [d|] eqn:Ed; [|done].
    destruct (data !! "price") as [pv|]; [|done]. simpl.
    destruct (py_float pv) as [p|] eqn:Ep; [|done].
    destruct (data !! "hotel") as [h|]; [|done].
    destruct (data !! "rating") as [rv|]; [|done]. simpl.
    destruct (py_float rv) as [r|] eqn:Er; [|done]. simpl.
    intros [= <-]. by exists dest, dv, d, pv, p, h, rv, r.
  - intros (dest & dv & d & pv & p & h & rv & r & -> & -> & -> & -> & ->
            & Hd & Hp & Hr & ->).
    simpl. rewrite Hd. simpl. rewrite Hp. simpl. rewrite Hr. done.
Qed.

Lemma create_trip_Created (trips trips' : list trip) (data : payload)
    (t : trip) :
  create_trip trips data = (Resp 201 (BTrip t), trips') →
  new_trip trips data = Ok t ∧ trips' = trips ++ [t].
Proof.
  unfold create_trip. case_decide; [done |].
  destruct (first_missing data required); [done |].
  destruct (new_trip trips data) as [t'|]; [|done].
  by intros [= -> <-].
Qed.

Lemma create_trip_state (trips : list trip) (data : payload) :
  (create_trip trips data).2 = trips ∨
  ∃ t, id t = _get_next_id trips ∧ (create_trip trips data).2 = trips ++ [t].
Proof.
  unfold create_trip. case_decide; [by left |].
  destruct (first_missing data required); [by left |].
  destruct (new_trip trips data) as [t|] eqn:E; [|by left].
  right. exists t. split; [|done].
  apply new_trip_Ok in E
    as (? & ? & ? & ? & ? & ? & ? & ? & _ & _ & _ & _ & _ & _ & _ & _ & ->).
  done.
Qed.

Lemma update_trip_ids (trips : list trip) (i : Z) (data : payload) :
  id <$> (update_trip trips i data).2 = id <$> trips.
Proof.
  unfold update_trip. destruct (find _ trips); [|done]. simpl.
  apply modify_first_ids. intros x. by rewrite update_fields_unfold.
Qed.

(** Every state the handlers produce satisfies the invariant. *)
Lemma reachable_ids_ok (trips : list trip) : reachable trips → ids_ok trips.
Proof.
  induction 1 as [|trips data _ [IH1 IH2]|trips i data _ IH
                 |trips i _ [IH1 IH2]].
  - split; constructor.
  - destruct (create_trip_state trips data) as [-> | (t & Ht & ->)];
      [done |].
    pose proof (next_id_above trips) as Habove.
    pose proof (next_id_positive trips IH2) as Hpos.
    unfold ids_ok. rewrite fmap_app. simpl. split.
    + apply NoDup_app. split; [done |]. split; [|apply NoDup_singleton].
      intros x Hx Hx'. apply list_elem_of_singleton in Hx'. subst x.
      rewrite Forall_forall in Habove. specialize (Habove _ Hx). lia.
    + apply Forall_app. split; [done |]. constructor; [lia | constructor].
  - unfold ids_ok. by rewrite update_trip_ids.
  - unfold delete_trip. simpl.
    assert (Hsub : (delete_trip trips i).2 = filter (λ t, id t ≠ i) trips).
    { unfold delete_trip. simpl. by destruct (_ =? _)%nat. }
    unfold delete_trip in Hsub. simpl in Hsub. rewrite Hsub. split.
    + clear Hsub IH2. induction trips as [|t ts IHts]; [constructor |].
      rewrite fmap_cons in IH1. apply NoDup_cons in IH1 as [Hin Hnd].
      destruct (decide (id t ≠ i)).
      * rewrite filter_cons_True by done. rewrite fmap_cons.
        apply NoDup_cons. split; [|auto].
        intros Hx. apply Hin. apply list_elem_of_fmap in Hx as (x & -> & Hx).
        apply list_elem_of_filter in Hx as [_ Hx].
        by apply list_elem_of_fmap_2.
      * rewrite filter_cons_False by done. auto.
    + apply Forall_forall. intros x Hx.
      apply list_elem_of_fmap in Hx as (y & -> & Hy).
      apply list_elem_of_filter in Hy as [_ Hy].
      rewrite Forall_forall in IH2. apply IH2. by apply list_elem_of_fmap_2.
Qed.
End handlers.

Lemma trip_get_None (s : string) (t : trip) :
  s ∉ trip_fields → trip_get s t = None.
Proof.
  intros H. unfold trip_get.
  repeat (case_decide; [subst s; exfalso; apply H; compute_done |]). done.
Qed.

Lemma trip_get_Some (s : string) (t : trip) :
  s ∈ trip_fields → is_Some (trip_get s t).
Proof.
  intros H. unfold trip_get. repeat (case_decide; [eauto |]).
  exfalso. unfold trip_fields in H.
  repeat (apply elem_of_cons in H as [H | H]; [done |]).
  by apply elem_of_nil in H.
Qed.

Lemma filter_id_split (l1 l2 : list trip) (t : trip) :
  NoDup (id <$> l1 ++ t :: l2) →
  filter (λ x, id x ≠ id t) (l1 ++ t :: l2) = l1 ++ l2.
Proof.
  rewrite fmap_app, fmap_cons. intros H.
  apply NoDup_app in H as (_ & H1 & H2). apply NoDup_cons in H2 as [H2 _].
  rewrite filter_app, filter_cons_False by (intros Hne; by apply Hne).
  rewrite !filter_id_absent; [done | done |].
  intros Hin. apply (H1 _ Hin). left.
Qed.

Lemma two_trips_reachable : reachable (P := plain_decimal) two_trips.
Proof.
  exact (reach_create _ rome (reach_create _ paris reach_start)).
Qed.

Lemma gap_trips_reachable : reachable (P := plain_decimal) gap_trips.
Proof.
  exact (reach_delete _ 2
           (reach_create _ paris
              (reach_create _ rome (reach_create _ paris reach_start)))).
Qed.

(** ** The claims *)

(** The id of a created trip, in terms of the ids already there. *)
Lemma next_id_of_created {P : PyParse} (trips trips' : list trip)
    (data : payload) (t : trip) :
  create_trip trips data = (Resp 201 (BTrip t), trips') →
  (trips = [] → id t = 1) ∧
  (trips ≠ [] →
   ∃ m, m ∈ id <$> trips ∧ (∀ i, i ∈ id <$> trips → i ≤ m) ∧ id t = m + 1).
Proof.
  intros H. apply create_trip_Created in H as [H ->].
  apply new_trip_Ok in H
    as (? & ? & ? & ? & ? & ? & ? & ? & _ & _ & _ & _ & _ & _ & _ & _ & ->).
  split.
  - by intros ->.
  - intros Hne. destruct trips as [|t0 ts]; [done |].
    exists (foldl Z.max (id t0) (id <$> ts)). split; [|split].
    + rewrite fmap_cons. apply foldl_max_elem.
    + intros i Hi. destruct (foldl_max_ge (id t0) (id <$> ts)) as [H1 H2].
      rewrite fmap_cons in Hi. apply elem_of_cons in Hi as [-> | Hi];
        [done |].
      rewrite Forall_forall in H2. by apply H2.
    + reflexivity.
Qed.

(** C1. Whatever the collection, a trip that [create_trip] adds gets the id
    1 when the collection is empty, and otherwise the largest id among the
    existing records plus 1; the trip is appended to the collection. *)
Theorem create_assigns_next_id {P : PyParse} (trips trips' : list trip)
    (data : payload) (t : trip) :
  create_trip trips data = (Resp 201 (BTrip t), trips') →
  trips' = trips ++ [t] ∧
  (trips = [] → id t = 1) ∧
  (trips ≠ [] →
   ∃ m, m ∈ id <$> trips ∧ (∀ i, i ∈ id <$> trips → i ≤ m) ∧ id t = m + 1).
Proof.
  intros H. split.
  - by apply create_trip_Created in H as [_ ->].
  - by apply next_id_of_created in H.
Qed.

Lemma create_assigns_next_id_witness :
  [trip_paris 1; trip_rome 2] = [trip_paris 1] ++ [trip_rome 2] ∧
  ([trip_paris 1] = [] → id (trip_rome 2) = 1) ∧
  ([trip_paris 1] ≠ [] →
   ∃ m, m ∈ id <$> [trip_paris 1] ∧
        (∀ i, i ∈ id <$> [trip_paris 1] → i ≤ m) ∧ id (trip_rome 2) = m + 1).
Proof.
  apply (create_assigns_next_id (P := plain_decimal) [trip_paris 1] _ rome).
  vm_compute. reflexivity.
Defined.

(** C6. Whatever the collection and the id, [update_trip] with an id that no
    record has answers NotFound (404) and leaves the collection as it was. *)
Theorem update_absent_id (trips : list trip) (trip_id : Z) (data : payload) :
  trip_id ∉ id <$> trips →
  update_trip trips trip_id data = (Resp 404 (BError msg_not_found), trips).
Proof.
  intros H. unfold update_trip. by rewrite find_id_None.
Qed.

Lemma update_absent_id_witness :
  update_trip two_trips 7 rome = (Resp 404 (BError msg_not_found), two_trips).
Proof.
  apply update_absent_id. compute_done.
Defined.

(** C7. In a collection that holds a trip with the given id, [delete_trip]
    removes that record and no other: the collection is one record shorter,
    the other records are the same, in the same order; deleting the same id
    again answers NotFound (404). *)
Theorem delete_removes_exactly_one {P : PyParse} (trips : list trip)
    (trip_id : Z) :
  reachable trips → trip_id ∈ id <$> trips →
  ∃ l1 t l2,
    trips = l1 ++ t :: l2 ∧ id t = trip_id ∧
    delete_trip trips trip_id = (Resp 200 (BMessage msg_deleted), l1 ++ l2) ∧
    S (length (l1 ++ l2)) = length trips ∧
    delete_trip (l1 ++ l2) trip_id
    = (Resp 404 (BError msg_not_found), l1 ++ l2).
Proof.
  intros Hr Hin. apply reachable_ids_ok in Hr as [Hnd _].
  destruct (find_id_Some trips trip_id Hin) as (l1 & t & l2 & -> & Hid & _ & _).
  exists l1, t, l2. subst trip_id.
  assert (Hlen : S (length (l1 ++ l2)) = length (l1 ++ t :: l2)).
  { rewrite !length_app. simpl. lia. }
  assert (Hgone : id t ∉ id <$> l1 ++ l2).
  { rewrite fmap_app, fmap_cons in Hnd. rewrite fmap_app.
    apply NoDup_app in Hnd as (_ & H1 & H2). apply NoDup_cons in H2 as [H2 _].
    intros H. apply elem_of_app in H as [H | H]; [|done].
    apply (H1 _ H). left. }
  repeat split; [| done |].
  - unfold delete_trip. rewrite filter_id_split by done.
    destruct (Nat.eqb_spec (length (l1 ++ l2)) (length (l1 ++ t :: l2)));
      [lia | done].
  - unfold delete_trip. rewrite filter_id_absent by done.
    by rewrite Nat.eqb_refl.
Qed.

Lemma delete_removes_exactly_one_witness :
  ∃ l1 t l2,
    two_trips = l1 ++ t :: l2 ∧ id t = 1 ∧
    delete_trip two_trips 1 = (Resp 200 (BMessage msg_deleted), l1 ++ l2) ∧
    S (length (l1 ++ l2)) = length two_trips ∧
    delete_trip (l1 ++ l2) 1 = (Resp 404 (BError msg_not_found), l1 ++ l2).
Proof.
  apply (delete_removes_exactly_one (P := plain_decimal)).
  - exact two_trips_reachable.
  - compute_done.
Defined.

(** C8. Whatever the collection, [get_trips] without a sort field, or with
    a sort field that is not a key of the records, answers 200 with the
    records in insertion order. *)
Theorem list_without_sort (trips : list trip) (sort order : option string) :
  (∀ s, sort = Some s → s ∉ trip_fields) →
  get_trips trips sort order = Resp 200 (BTrips trips).
Proof.
  intros H. unfold get_trips. destruct sort as [s|]; [|done].
  destruct trips as [|t0 ts]; [done |].
  rewrite (trip_get_None s t0) by auto.
  by rewrite andb_false_r.
Qed.

Lemma list_without_sort_witness :
  get_trips two_trips (Some "colour") (Some "desc")
  = Resp 200 (BTrips two_trips).
Proof.
  apply list_without_sort. intros s [= <-]. compute_done.
Defined.

(** C9. In a collection that holds a trip with the given id, [update_trip]
    changes the first such trip only, and of that trip only the fields the
    payload has: its id stays (also when the payload has an ["id"] key), a
    field the payload lacks stays, every other trip stays. *)
Theorem update_overwrites_present_fields (trips : list trip) (trip_id : Z)
    (data : payload) :
  trip_id ∈ id <$> trips →
  ∃ l1 t l2 t',
    trips = l1 ++ t :: l2 ∧ id t = trip_id ∧ (trip_id ∉ id <$> l1) ∧
    update_trip trips trip_id data = (Resp 200 (BTrip t'), l1 ++ t' :: l2) ∧
    id t' = id t ∧
    destination t' = default (destination t) (data !! "destination") ∧
    days t' = default (days t) (data !! "days") ∧
    price t' = default (price t) (data !! "price") ∧
    hotel t' = default (hotel t) (data !! "hotel") ∧
    rating t' = default (rating t) (data !! "rating").
Proof.
  intros Hin.
  destruct (find_id_Some trips trip_id Hin)
    as (l1 & t & l2 & -> & Hid & Hl1 & Hfind).
  exists l1, t, l2, (update_fields data t).
  split; [done |]. split; [done |]. split; [done |]. split.
  - unfold update_trip. rewrite Hfind. by rewrite modify_first_split.
  - by rewrite update_fields_unfold.
Qed.

Lemma update_overwrites_present_fields_witness :
  ∃ l1 t l2 t',
    two_trips = l1 ++ t :: l2 ∧ id t = 2 ∧ (2 ∉ id <$> l1) ∧
    update_trip two_trips 2 new_price
    = (Resp 200 (BTrip t'), l1 ++ t' :: l2) ∧
    id t' = id t ∧
    destination t' = default (destination t) (new_price !! "destination") ∧
    days t' = default (days t) (new_price !! "days") ∧
    price t' = default (price t) (new_price !! "price") ∧
    hotel t' = default (hotel t) (new_price !! "hotel") ∧
    rating t' = default (rating t) (new_price !! "rating").
Proof.
  apply update_overwrites_present_fields. compute_done.
Defined.

(** C10, as stated, fails: in the collection with ids 1 and 3 (three trips
    created, the second deleted), deleting the trip with the largest id 3
    and creating a trip gives id 2, not 3 again. *)
Lemma create_after_delete_max_not_same :
  id <$> gap_trips = [1; 3] ∧
  create_trip (P := plain_decimal) (delete_trip gap_trips 3).2 rome
  = (Resp 201 (BTrip (trip_rome 2)), [trip_paris 1; trip_rome 2]) ∧
  id (trip_rome 2) ≠ 3.
Proof.
  split; [vm_compute; reflexivity |].
  split; [vm_compute; reflexivity | done].
Qed.

(** C10, amended. Ids are unique among the existing records only: after
    deleting the trip with the largest id [m], the next trip created gets
    the largest remaining id plus 1 (1 when nothing remains), which is at
    most [m]; it is [m] again exactly when the id [m - 1] is still in the
    collection, or when [m = 1]. *)
Theorem create_after_delete_max {P : PyParse} (trips trips' : list trip)
    (m : Z) (data : payload) (t : trip) :
  reachable trips →
  m ∈ id <$> trips → (∀ i, i ∈ id <$> trips → i ≤ m) →
  create_trip (delete_trip trips m).2 data = (Resp 201 (BTrip t), trips') →
  id t ≤ m ∧
  (id t = m ↔
   m - 1 ∈ id <$> (delete_trip trips m).2 ∨
   ((delete_trip trips m).2 = [] ∧ m = 1)).
Proof.
  intros Hr Hin Hmax Hcreate.
  pose proof (reachable_ids_ok _ Hr) as [_ Hpos].
  assert (Hm : 1 ≤ m). { rewrite Forall_forall in Hpos. by apply Hpos. }
  assert (Hrest : (delete_trip trips m).2 = filter (λ x, id x ≠ m) trips).
  { unfold delete_trip. simpl. by destruct (_ =? _)%nat. }
  rewrite Hrest in *. clear Hrest.
  assert (Hlt : ∀ i, i ∈ id <$> filter (λ x, id x ≠ m) trips → i < m).
  { intros i Hi. apply list_elem_of_fmap in Hi as (x & -> & Hx).
    apply list_elem_of_filter in Hx as [Hne Hx].
    specialize (Hmax (id x) (list_elem_of_fmap_2 _ _ _ Hx)). lia. }
  destruct (next_id_of_created _ _ _ _ Hcreate) as [Hnil Hcons].
  destruct (filter (λ x, id x ≠ m) trips) as [|t0 ts] eqn:E.
  - rewrite (Hnil eq_refl). split; [done |]. split.
    + intros <-. by right.
    + intros [H | [_ ->]]; [by apply elem_of_nil in H | done].
  - destruct Hcons as (k & Hk & Hkmax & ->); [done |].
    specialize (Hlt k Hk) as Hkm. split; [lia |]. split.
    + intros Heq. left. by replace (m - 1) with k by lia.
    + intros [H | [? _]]; [|done].
      specialize (Hkmax _ H). lia.
Qed.

Lemma create_after_delete_max_witness :
  id (trip_rome 2) ≤ 2 ∧
  (id (trip_rome 2) = 2 ↔
   2 - 1 ∈ id <$> (delete_trip two_trips 2).2 ∨
   ((delete_trip two_trips 2).2 = [] ∧ 2 = 1)).
Proof.
  apply (create_after_delete_max (P := plain_decimal) two_trips
           [trip_paris 1; trip_rome 2] 2 rome).
  - exact two_trips_reachable.
  - compute_done.
  - intros i Hi. vm_compute in Hi.
    repeat (apply elem_of_cons in Hi as [-> | Hi]; [done |]).
    by apply elem_of_nil in Hi.
  - vm_compute. reflexivity.
Defined.

Lemma py_int_Raise {P : PyParse} (v : value) (e : exn) :
  py_int v = Raise e →
  e = TypeError ∨ e = ValueError ∨ e = OverflowError.
Proof.
  destruct v as [| | | | | |s]; simpl; try done.
  - intros [= <-]. by left.
  - intros [= <-]. right. by right.
  - intros [= <-]. right. by left.
  - destruct (int_of_str s); [done |]. intros [= <-]. right. by left.
Qed.

Lemma float_of_Z_Raise (z : Z) (e : exn) :
  float_of_Z z = Raise e → e = OverflowError.
Proof.
  unfold float_of_Z. destruct (round_to_double (inject_Z z)); [done | |];
    by intros [= <-].
Qed.

Lemma py_float_Raise {P : PyParse} (v : value) (e : exn) :
  py_float v = Raise e →
  e = TypeError ∨ e = ValueError ∨ e = OverflowError.
Proof.
  destruct v as [| |z| | | |s]; simpl; try done.
  - intros [= <-]. by left.
  - intros H. right. right. by eapply float_of_Z_Raise.
  - destruct (float_of_str s); [done |]. intros [= <-]. right. by left.
Qed.

Lemma first_missing_present (data : payload) (dest dv pv h rv : value) :
  data !! "destination" = Some dest → data !! "days" = Some dv →
  data !! "price" = Some pv → data !! "hotel" = Some h →
  data !! "rating" = Some rv →
  data ≠ ∅ ∧ first_missing data required = None.
Proof.
  intros H1 H2 H3 H4 H5. split.
  - intros ->. by rewrite lookup_empty in H1.
  - simpl. by rewrite H1, H2, H3, H4, H5.
Qed.

(** C4. The code does not do what the claim says: a body with all five
    fields whose [days] is [null] makes [int] raise a [TypeError] that
    [create_trip] does not catch, so the caller gets no ValidationError
    response (the collection is left unchanged, as claimed). *)
Lemma create_null_days_unhandled :
  first_missing null_days required = None ∧
  py_int (P := plain_decimal) VNone = Raise TypeError ∧
  create_trip (P := plain_decimal) two_trips null_days
  = (Unhandled TypeError, two_trips) ∧
  ¬ ValidationError (create_trip (P := plain_decimal) two_trips null_days).1.
Proof.
  assert (H : create_trip (P := plain_decimal) two_trips null_days
              = (Unhandled TypeError, two_trips))
    by (vm_compute; reflexivity).
  split; [done |]. split; [done |]. split; [done |].
  rewrite H. by intros [msg Hmsg].
Qed.

Lemma missing_message_mentions (field : string) :
  field ∈ required → mentions (msg_missing +:+ field) field.
Proof.
  unfold required. intros H.
  repeat (apply elem_of_cons in H as [-> | H]; [vm_compute; eauto |]).
  by apply elem_of_nil in H.
Qed.

(** C5, as stated, fails twice: the empty object lacks all five fields and
    is refused with a message that names none of them; and a body with all
    five fields whose [days] is [null] is not created. *)
Lemma create_empty_body_names_no_field :
  (∀ f, f ∈ required → (∅ : payload) !! f = None) ∧
  create_trip (P := plain_decimal) two_trips ∅
  = (Resp 400 (BError msg_bad_json), two_trips) ∧
  (∀ f, f ∈ required → ¬ mentions msg_bad_json f) ∧
  (∀ f, f ∈ required → is_Some (null_days !! f)) ∧
  create_trip (P := plain_decimal) two_trips null_days
  = (Unhandled TypeError, two_trips).
Proof.
  split; [intros f _; apply lookup_empty |].
  split; [vm_compute; reflexivity |].
  split.
  { unfold required. intros f H.
    repeat (apply elem_of_cons in H as [-> | H];
            [vm_compute; by intros [x Hx] |]).
    by apply elem_of_nil in H. }
  split; [|vm_compute; reflexivity].
  unfold required. intros f H.
  repeat (apply elem_of_cons in H as [-> | H]; [vm_compute; eauto |]).
  by apply elem_of_nil in H.
Qed.

(** C5, amended. The empty object is refused with the message for an
    invalid body. A non-empty body that lacks a required field is refused
    with a ValidationError whose message names a missing field, the first
    one in the order destination, days, price, hotel, rating; in both cases
    no trip is appended and the next id stays the same. When all five fields
    are present and [days], [price], [rating] can be turned into numbers,
    the trip is created with [int(days)], [float(price)], [float(rating)]
    and appended. *)
Theorem create_checks_required_fields {P : PyParse} (trips : list trip)
    (data : payload) :
  (data = ∅ →
   create_trip trips data = (Resp 400 (BError msg_bad_json), trips)) ∧
  (data ≠ ∅ → (∃ f, f ∈ required ∧ data !! f = None) →
   ∃ before field after,
     required = before ++ field :: after ∧
     Forall (λ g, is_Some (data !! g)) before ∧ data !! field = None ∧
     create_trip trips data
     = (Resp 400 (BError (msg_missing +:+ field)), trips) ∧
     ValidationError (create_trip trips data).1 ∧
     mentions (msg_missing +:+ field) field ∧
     _get_next_id (create_trip trips data).2 = _get_next_id trips) ∧
  (∀ dest dv pv h rv d p r,
     data !! "destination" = Some dest → data !! "days" = Some dv →
     data !! "price" = Some pv → data !! "hotel" = Some h →
     data !! "rating" = Some rv →
     py_int dv = Ok d → py_float pv = Ok p → py_float rv = Ok r →
     let t := Trip (_get_next_id trips) dest (VInt d) (value_of_float p) h
                (value_of_float r)
     in create_trip trips data = (Resp 201 (BTrip t), trips ++ [t])).
Proof.
  split; [|split].
  - intros ->. unfold create_trip. by rewrite decide_True.
  - intros Hne (f & Hf & Hnone).
    destruct (first_missing data required) as [field|] eqn:E.
    + apply first_missing_Some in E as Hfield.
      destruct Hfield as (before & after & Hreq & Hbefore & Hno).
      exists before, field, after.
      assert (Hc : create_trip trips data
                   = (Resp 400 (BError (msg_missing +:+ field)), trips)).
      { unfold create_trip. rewrite decide_False by done. by rewrite E. }
      rewrite Hc. simpl. repeat split; try done.
      * by eexists.
      * apply missing_message_mentions. rewrite Hreq.
        apply elem_of_app. right. left.
    + rewrite first_missing_None in E. destruct (E f Hf) as [v Hv].
      congruence.
  - intros dest dv pv h rv d p r H1 H2 H3 H4 H5 Hd Hp Hr t.
    destruct (first_missing_present _ _ _ _ _ _ H1 H2 H3 H4 H5) as [Hne Hfm].
    unfold create_trip. rewrite decide_False by done. rewrite Hfm.
    assert (Hnew : new_trip trips data = Ok t).
    { apply new_trip_Ok. by exists dest, dv, d, pv, p, h, rv, r. }
    by rewrite Hnew.
Qed.

Lemma create_checks_required_fields_witness :
  create_trip (P := plain_decimal) two_trips ∅
  = (Resp 400 (BError msg_bad_json), two_trips) ∧
  (∃ before field after,
     required = before ++ field :: after ∧
     Forall (λ g, is_Some (no_hotel !! g)) before ∧
     no_hotel !! field = None ∧
     create_trip (P := plain_decimal) two_trips no_hotel
     = (Resp 400 (BError (msg_missing +:+ field)), two_trips) ∧
     ValidationError (create_trip (P := plain_decimal) two_trips no_hotel).1 ∧
     mentions (msg_missing +:+ field) field ∧
     _get_next_id (create_trip (P := plain_decimal) two_trips no_hotel).2
     = _get_next_id two_trips) ∧
  create_trip (P := plain_decimal) two_trips paris
  = (Resp 201 (BTrip (trip_paris 3)), two_trips ++ [trip_paris 3]).
Proof.
  split; [|split].
  - by apply (create_checks_required_fields (P := plain_decimal) two_trips ∅).
  - apply (create_checks_required_fields (P := plain_decimal) two_trips
             no_hotel).
    + by vm_compute.
    + exists "hotel". split; [compute_done | by vm_compute].
  - apply (proj2 (proj2 (create_checks_required_fields
                           (P := plain_decimal) two_trips paris))
             (VStr "Paris") (VInt 3) (VFloat 500) (VStr "Ritz")
             (VFloat (9 # 2)) 3 (FFin 500) (FFin (9 # 2)));
      vm_compute; reflexivity.
Defined.

(** ** Numbers: comparison, sum, rounding *)

Lemma Qltb_true (x y : Q) : Qltb x y = true ↔ (x < y)%Q.
Proof.
  unfold Qltb. rewrite negb_true_iff. split.
  - intros H. apply Qnot_le_lt. intros Hle.
    apply Qle_bool_iff in Hle. congruence.
  - intros H. destruct (Qle_bool y x) eqn:E; [|done].
    apply Qle_bool_iff in E. lra.
Qed.

Lemma Qltb_false (x y : Q) : Qltb x y = false ↔ (y <= x)%Q.
Proof.
  unfold Qltb. rewrite negb_false_iff. apply Qle_bool_iff.
Qed.

Lemma float_val_num (v : value) (x : Q) :
  num_val v = Some x → float_val v = Some (FFin x).
Proof. destruct v; simpl; try done; by intros [= ->]. Qed.

Lemma py_lt_num (a b : value) (x y : Q) :
  num_val a = Some x → num_val b = Some y → py_lt a b = Ok (Qltb x y).
Proof.
  intros Ha Hb. unfold py_lt.
  rewrite (float_val_num _ _ Ha), (float_val_num _ _ Hb).
  destruct a; try done; destruct b; done.
Qed.

Lemma val_le_num (a b : value) (x y : Q) :
  num_val a = Some x → num_val b = Some y → val_le a b ↔ (x <= y)%Q.
Proof.
  intros Ha Hb. unfold val_le. rewrite Ha, Hb.
  destruct a; try done; destruct b; done.
Qed.








Lemma int_truediv_outcome (a n : Z) :
  int_truediv a n = Ok (round_to_double (inject_Z a / inject_Z n))
  ∨ int_truediv a n = Raise OverflowError.
Proof.
  unfold int_truediv.
  destruct (round_to_double (inject_Z a / inject_Z n)); eauto.
Qed.


Section stats_facts.
Context {S : PySum}.



End stats_facts.




(** ** Strings: the lexicographic order *)

Lemma ascii_compare_refl (c : ascii) : Ascii.compare c c = Eq.
Proof. apply N.compare_refl. Qed.

Lemma string_compare_refl (s : string) : String.compare s s = Eq.
Proof.
  induction s as [|c s IH]; simpl; [done |].
  by rewrite ascii_compare_refl.
Qed.

Lemma string_le_trans (a b c : string) :
  String.compare a b ≠ Gt → String.compare b c ≠ Gt →
  String.compare a c ≠ Gt.
Proof.
  revert b c. induction a as [|x a IH]; intros [|y b] [|z c]; simpl;
    try done.
  destruct (Ascii.compare x y) eqn:Exy; [| |done].
  - apply Ascii.compare_eq_iff in Exy as ->.
    destruct (Ascii.compare y z); [apply IH | done | done].
  - destruct (Ascii.compare y z) eqn:Eyz; [| |done].
    + apply Ascii.compare_eq_iff in Eyz as ->. by rewrite Exy.
    + unfold Ascii.compare in *. rewrite N.compare_lt_iff in Exy, Eyz.
      assert (H : (N_of_ascii x < N_of_ascii z)%N) by lia.
      apply N.compare_lt_iff in H. by rewrite H.
Qed.

Lemma string_ltb_false (s t : string) :
  String.ltb t s = false ↔ String.leb s t = true.
Proof.
  unfold String.ltb, String.leb. rewrite (String.compare_antisym t s).
  by destruct (String.compare s t).
Qed.

(** ** The two classes of keys that [<] orders *)

Lemma numeric_lt_total (a b : value) :
  numeric a → numeric b → ∃ r, py_lt a b = Ok r.
Proof. intros [x Hx] [y Hy]. rewrite (py_lt_num _ _ _ _ Hx Hy). eauto. Qed.

Lemma numeric_lt_asym (a b : value) :
  numeric a → numeric b → py_lt a b = Ok true → py_lt b a = Ok false.
Proof.
  intros [x Hx] [y Hy].
  rewrite (py_lt_num _ _ _ _ Hx Hy), (py_lt_num _ _ _ _ Hy Hx).
  intros [= H]. f_equal. apply Qltb_true in H. apply Qltb_false. lra.
Qed.

Lemma numeric_le_trans (a b c : value) :
  numeric a → numeric b → numeric c →
  py_lt b a = Ok false → py_lt c b = Ok false → py_lt c a = Ok false.
Proof.
  intros [x Hx] [y Hy] [z Hz].
  rewrite (py_lt_num _ _ _ _ Hy Hx), (py_lt_num _ _ _ _ Hz Hy),
    (py_lt_num _ _ _ _ Hz Hx).
  intros [= H1] [= H2]. f_equal. apply Qltb_false in H1, H2.
  apply Qltb_false. lra.
Qed.

Lemma numeric_eq_not_lt (k a b : value) :
  numeric a → numeric b →
  val_eqb k a = true → val_eqb k b = true → py_lt b a = Ok false.
Proof.
  intros [x Hx] [y Hy] Ha Hb. rewrite (py_lt_num _ _ _ _ Hy Hx). f_equal.
  apply Qltb_false.
  assert (Hk : ∃ q, num_val k = Some q ∧ (q == x)%Q ∧ (q == y)%Q).
  { unfold val_eqb in Ha, Hb. rewrite Hx in Ha. rewrite Hy in Hb.
    destruct (num_val k) as [q|] eqn:Ek.
    - exists q. split; [done |].
      split; apply Qeq_bool_iff.
      + destruct k; try done; destruct a; done.
      + destruct k; try done; destruct b; done.
    - destruct k; try done; destruct a; done. }
  destruct Hk as (q & _ & H1 & H2). lra.
Qed.

Lemma numeric_val_le (a b : value) :
  numeric a → numeric b → py_lt b a = Ok false ↔ val_le a b.
Proof.
  intros [x Hx] [y Hy].
  rewrite (py_lt_num _ _ _ _ Hy Hx), (val_le_num _ _ _ _ Hx Hy).
  rewrite <- Qltb_false. split; [by intros [= ->] | by intros ->].
Qed.

Lemma str_lt_total (a b : value) :
  is_str a → is_str b → ∃ r, py_lt a b = Ok r.
Proof. intros [s ->] [t ->]. simpl. eauto. Qed.

Lemma str_lt_asym (a b : value) :
  is_str a → is_str b → py_lt a b = Ok true → py_lt b a = Ok false.
Proof.
  intros [s ->] [t ->]. simpl. intros [= H]. f_equal.
  unfold String.ltb in *. rewrite (String.compare_antisym t s).
  by destruct (String.compare s t).
Qed.

Lemma str_le_trans (a b c : value) :
  is_str a → is_str b → is_str c →
  py_lt b a = Ok false → py_lt c b = Ok false → py_lt c a = Ok false.
Proof.
  intros [s ->] [t ->] [u ->]. simpl. intros [= H1] [= H2]. f_equal.
  apply string_ltb_false in H1, H2. apply string_ltb_false.
  unfold String.leb in *.
  pose proof (string_le_trans s t u) as H.
  destruct (String.compare s t); try done;
    destruct (String.compare t u); try done;
    destruct (String.compare s u); try done; by exfalso; apply H.
Qed.

Lemma str_eq_not_lt (k a b : value) :
  is_str a → is_str b →
  val_eqb k a = true → val_eqb k b = true → py_lt b a = Ok false.
Proof.
  intros [s ->] [t ->] Ha Hb. destruct k; try done. simpl in *.
  apply String.eqb_eq in Ha, Hb. subst. f_equal.
  unfold String.ltb. by rewrite string_compare_refl.
Qed.

Lemma str_val_le (a b : value) :
  is_str a → is_str b → py_lt b a = Ok false ↔ val_le a b.
Proof.
  intros [s ->] [t ->]. simpl. rewrite <- string_ltb_false.
  split; [by intros [= ->] | by intros ->].
Qed.

(** ** The sort on keys that [<] orders *)

Lemma StronglySorted_reverse {A : Type} (R : relation A) (l : list A) :
  StronglySorted R l → StronglySorted (flip R) (reverse l).
Proof.
  induction 1 as [|x l Hl IH Hx]; [constructor |].
  rewrite reverse_cons. apply StronglySorted_app_2.
  - intros x1 x2 H1 H2. apply list_elem_of_singleton in H2 as ->.
    rewrite elem_of_reverse in H1. rewrite Forall_forall in Hx.
    unfold flip. by apply Hx.
  - done.
  - repeat constructor.
Qed.

Lemma StronglySorted_impl_elem {A : Type} (R R' : relation A) (l : list A) :
  (∀ x y, x ∈ l → y ∈ l → R x y → R' x y) →
  StronglySorted R l → StronglySorted R' l.
Proof.
  intros HR Hl. induction Hl as [|x l Hl IH Hx]; [constructor |].
  constructor.
  - apply IH. intros a b Ha Hb. apply HR; by right.
  - rewrite Forall_forall in *. intros y Hy.
    apply HR; [left | by right | by apply Hx].
Qed.

Lemma filter_none {A : Type} (p : A → Prop) `{∀ x, Decision (p x)}
    (l : list A) :
  Forall (λ x, ¬ p x) l → filter p l = [].
Proof.
  induction 1 as [|x l Hx Hl IH]; [done |].
  by rewrite filter_cons_False.
Qed.

Section sort_facts.
Context {A : Type} (key : A → value) (dom : value → Prop).
Hypothesis dom_total : ∀ a b, dom a → dom b → ∃ r, py_lt a b = Ok r.
Hypothesis dom_asym :
  ∀ a b, dom a → dom b → py_lt a b = Ok true → py_lt b a = Ok false.
Hypothesis dom_trans :
  ∀ a b c, dom a → dom b → dom c →
    py_lt b a = Ok false → py_lt c b = Ok false → py_lt c a = Ok false.

(** [sort_insert] puts [x] behind the elements smaller than [x] that
    head the list. *)
Lemma sort_insert_split (x : A) (l : list A) :
  dom (key x) → Forall (λ y, dom (key y)) l →
  ∃ l1 l2,
    l = l1 ++ l2 ∧ sort_insert key x l = Ok (l1 ++ x :: l2) ∧
    Forall (λ y, py_lt (key y) (key x) = Ok true) l1 ∧
    (∀ y, head l2 = Some y → py_lt (key y) (key x) = Ok false).
Proof.
  intros Hx Hl. induction Hl as [|y l Hy Hl IH]; simpl.
  - exists [], []. repeat split; [constructor | done].
  - destruct (dom_total _ _ Hy Hx) as [[|] Hr]; rewrite Hr; simpl.
    + destruct IH as (l1 & l2 & -> & Hins & Hl1 & Hl2).
      exists (y :: l1), l2. rewrite Hins. simpl.
      repeat split; [by constructor | done].
    + exists [], (y :: l). repeat split; [constructor |].
      by intros ? [= <-].
Qed.

Lemma sort_asc_spec (l : list A) :
  Forall (λ y, dom (key y)) l →
  ∃ out,
    sort_asc key l = Ok out ∧ out ≡ₚ l ∧
    StronglySorted (not_after key) out ∧
    ∀ (p : A → Prop) (dec : ∀ x, Decision (p x)),
      ties key dom p → filter p out = filter p l.
Proof.
  induction 1 as [|x l Hx Hl IH]; simpl.
  - exists []. split; [done |]. split; [done |].
    split; [constructor | done].
  - destruct IH as (out0 & -> & Hperm & Hsorted & Hstable). simpl.
    assert (Hdom : Forall (λ y, dom (key y)) out0) by by rewrite Hperm.
    destruct (sort_insert_split x out0 Hx Hdom)
      as (l1 & l2 & -> & -> & Hl1 & Hl2).
    exists (l1 ++ x :: l2). split; [done |].
    apply Forall_app in Hdom as [Hdom1 Hdom2].
    apply StronglySorted_app in Hsorted as (Hcross & Hs1 & Hs2).
    split; [|split].
    + etrans; [symmetry; apply Permutation_middle |]. by constructor.
    + apply StronglySorted_app_2; [| done |].
      * intros x1 x2 H1 H2. apply elem_of_cons in H2 as [-> | H2];
          [|by apply Hcross].
        rewrite Forall_forall in Hl1, Hdom1.
        apply dom_asym; [by apply Hdom1 | done | by apply Hl1].
      * constructor; [done |].
        destruct l2 as [|y l2]; [constructor |].
        specialize (Hl2 y eq_refl).
        apply StronglySorted_cons in Hs2 as [Hy _].
        apply Forall_cons in Hdom2 as [Hdy Hdom2].
        constructor; [done |].
        rewrite Forall_forall in *. intros z Hz.
        unfold not_after in *. eapply dom_trans; eauto.
    + intros p dec Hp.
      rewrite filter_app, (filter_cons _ x l2), (filter_cons _ x l).
      rewrite <- (Hstable p dec Hp), filter_app.
      destruct (decide (p x)) as [Hpx|]; [|done].
      rewrite (filter_none p l1); [done |].
      rewrite Forall_forall in *. intros y Hy Hpy.
      specialize (Hp x y Hx (Hdom1 y Hy) Hpx Hpy).
      specialize (Hl1 y Hy). congruence.
Qed.

Lemma py_sort_spec (reversed : bool) (l : list A) :
  Forall (λ y, dom (key y)) l →
  ∃ out,
    py_sort key reversed l = Ok out ∧ out ≡ₚ l ∧
    (if reversed then StronglySorted (flip (not_after key)) out
     else StronglySorted (not_after key) out) ∧
    ∀ (p : A → Prop) (dec : ∀ x, Decision (p x)),
      ties key dom p → filter p out = filter p l.
Proof.
  intros Hl. unfold py_sort. destruct reversed.
  - assert (Hrev : Forall (λ y, dom (key y)) (reverse l))
      by by rewrite reverse_Permutation.
    destruct (sort_asc_spec _ Hrev) as (out & -> & Hperm & Hs & Hst).
    simpl. exists (reverse out). split; [done |]. split; [|split].
    + by rewrite reverse_Permutation, Hperm, reverse_Permutation.
    + by apply StronglySorted_reverse.
    + intros p dec Hp.
      by rewrite filter_reverse, (Hst p dec Hp), filter_reverse,
        reverse_involutive.
  - by apply sort_asc_spec.
Qed.
End sort_facts.

Lemma trip_field_not_empty (s : string) : s ∈ trip_fields → s ≠ "".
Proof.
  unfold trip_fields. intros H.
  repeat (apply elem_of_cons in H as [-> | H]; [done |]).
  by apply elem_of_nil in H.
Qed.

Section get_trips_sorted.
Context (dom : value → Prop).
Hypothesis dom_total : ∀ a b, dom a → dom b → ∃ r, py_lt a b = Ok r.
Hypothesis dom_asym :
  ∀ a b, dom a → dom b → py_lt a b = Ok true → py_lt b a = Ok false.
Hypothesis dom_trans :
  ∀ a b c, dom a → dom b → dom c →
    py_lt b a = Ok false → py_lt c b = Ok false → py_lt c a = Ok false.
Hypothesis dom_eq :
  ∀ k a b, dom a → dom b →
    val_eqb k a = true → val_eqb k b = true → py_lt b a = Ok false.
Hypothesis dom_le :
  ∀ a b, dom a → dom b → py_lt b a = Ok false ↔ val_le a b.

Lemma get_trips_ordered (trips : list trip) (s : string)
    (order : option string) :
  s ∈ trip_fields → Forall (λ t, dom (sort_key s t)) trips →
  ∃ out,
    get_trips trips (Some s) order = Resp 200 (BTrips out) ∧
    out ≡ₚ trips ∧
    (if descending order then StronglySorted (descending_by s) out
     else StronglySorted (ascending_by s) out) ∧
    ∀ k, filter (same_key s k) out = filter (same_key s k) trips.
Proof.
  intros Hs Hdom.
  destruct (py_sort_spec (sort_key s) dom dom_total dom_asym dom_trans
              (descending order) trips Hdom)
    as (out & Hsort & Hperm & Hsorted & Hstable).
  exists out. split; [|split; [done | split]].
  - unfold get_trips. destruct trips as [|t0 ts].
    + unfold py_sort in Hsort. simpl in Hsort.
      destruct (descending order); simpl in Hsort; by injection Hsort as <-.
    + apply trip_field_not_empty in Hs as Hne.
      apply String.eqb_neq in Hne. rewrite Hne.
      rewrite bool_decide_eq_true_2 by by apply trip_get_Some.
      cbn [negb andb]. fold (descending order).
      change (λ x : trip, default VNone (trip_get s x)) with (sort_key s).
      by rewrite Hsort.
  - assert (Hout : ∀ x, x ∈ out → dom (sort_key s x)).
    { intros x Hx. rewrite Hperm in Hx. rewrite Forall_forall in Hdom.
      by apply Hdom. }
    destruct (descending order).
    + eapply StronglySorted_impl_elem; [|exact Hsorted].
      intros x y Hx Hy H. apply dom_le; auto.
    + eapply StronglySorted_impl_elem; [|exact Hsorted].
      intros x y Hx Hy H. apply dom_le; auto.
  - intros k. apply Hstable.
    intros x y Hx Hy Hpx Hpy. by eapply dom_eq.
Qed.
End get_trips_sorted.

(** C3, as stated, fails: two trips created with a [null] destination
    (create stores the destination as it comes) cannot be sorted by
    destination, the [TypeError] of [None < None] escapes [get_trips]. *)
Lemma list_null_destinations_unhandled :
  (create_trip (P := plain_decimal)
     (create_trip (P := plain_decimal) [] null_destination).2
     null_destination).2 = null_trips ∧
  "destination" ∈ trip_fields ∧
  get_trips null_trips (Some "destination") None = Unhandled TypeError.
Proof.
  split; [vm_compute; reflexivity |].
  split; [compute_done | vm_compute; reflexivity].
Qed.

(** C3, amended. When the sort field is a key of the records and its
    values are all numbers, or all strings, [get_trips] answers the records
    sorted by that field, ascending unless the lowered [order] is "desc",
    descending if it is; the sort is stable in both directions: the records
    with equal keys keep their insertion order. *)
Theorem list_sorts_stably (trips : list trip) (s : string)
    (order : option string) :
  s ∈ trip_fields →
  Forall (λ t, numeric (sort_key s t)) trips
  ∨ Forall (λ t, is_str (sort_key s t)) trips →
  ∃ out,
    get_trips trips (Some s) order = Resp 200 (BTrips out) ∧
    out ≡ₚ trips ∧
    (if descending order then StronglySorted (descending_by s) out
     else StronglySorted (ascending_by s) out) ∧
    (∀ k, filter (same_key s k) out = filter (same_key s k) trips) ∧
    descending None = false ∧ descending (Some "desc") = true.
Proof.
  intros Hs [Hnum | Hstr].
  - destruct (get_trips_ordered numeric numeric_lt_total numeric_lt_asym
                numeric_le_trans numeric_eq_not_lt numeric_val_le
                trips s order Hs Hnum) as (out & H1 & H2 & H3 & H4).
    by exists out.
  - destruct (get_trips_ordered is_str str_lt_total str_lt_asym
                str_le_trans str_eq_not_lt str_val_le
                trips s order Hs Hstr) as (out & H1 & H2 & H3 & H4).
    by exists out.
Qed.

Lemma list_sorts_stably_witness :
  ∃ out,
    get_trips three_trips (Some "rating") (Some "desc")
    = Resp 200 (BTrips out) ∧
    out ≡ₚ three_trips ∧
    (if descending (Some "desc")
     then StronglySorted (descending_by "rating") out
     else StronglySorted (ascending_by "rating") out) ∧
    (∀ k, filter (same_key "rating" k) out
          = filter (same_key "rating" k) three_trips) ∧
    descending None = false ∧ descending (Some "desc") = true.
Proof.
  apply list_sorts_stably.
  - compute_done.
  - left. repeat constructor; vm_compute; eauto.
Defined.

(** Rome and Oslo have the same rating: they keep their order, ascending
    and descending. *)
Example list_by_rating_ties :
  get_trips three_trips (Some "rating") None
  = Resp 200 (BTrips [trip_rome 2; trip_oslo 3; trip_paris 1]) ∧
  get_trips three_trips (Some "rating") (Some "desc")
  = Resp 200 (BTrips [trip_paris 1; trip_rome 2; trip_oslo 3]).
Proof. split; vm_compute; reflexivity. Qed.

(** The example of the specification: Paris (500.0) then Rome (300.0),
    listed by price. *)
Example list_by_price :
  get_trips two_trips (Some "price") None
  = Resp 200 (BTrips [trip_rome 2; trip_paris 1]) ∧
  get_trips two_trips (Some "price") (Some "desc")
  = Resp 200 (BTrips [trip_paris 1; trip_rome 2]).
Proof. split; vm_compute; reflexivity. Qed.

(** ** Further facts about the handlers *)

Lemma delete_trip_state (trips : list trip) (i : Z) :
  (delete_trip trips i).2 = filter (λ t, id t ≠ i) trips.
Proof. unfold delete_trip. simpl. by destruct (_ =? _)%nat. Qed.

Lemma find_id_new (trips : list trip) (t : trip) :
  Forall (λ i, i < id t) (id <$> trips) →
  find (λ x, id x =? id t) (trips ++ [t]) = Some t.
Proof.
  induction trips as [|x l IH].
  - intros _. simpl. by rewrite Z.eqb_refl.
  - rewrite fmap_cons. intros H. apply Forall_cons in H as [Hx Hl]. simpl.
    destruct (Z.eqb_spec (id x) (id t)); [lia | auto].
Qed.

Lemma find_id_member (trips : list trip) (t : trip) :
  NoDup (id <$> trips) → t ∈ trips →
  find (λ x, id x =? id t) trips = Some t.
Proof.
  induction trips as [|x l IH].
  - intros _ H. by apply elem_of_nil in H.
  - rewrite fmap_cons. intros Hnd Hin. apply NoDup_cons in Hnd as [Hx Hnd].
    simpl.
    apply elem_of_cons in Hin as [<- | Hin]; [by rewrite Z.eqb_refl |].
    destruct (Z.eqb_spec (id x) (id t)) as [Heq | _]; [|auto].
    exfalso. apply Hx. rewrite Heq. by apply list_elem_of_fmap_2.
Qed.

Lemma ascending_filter (p : trip → Prop) `{∀ x, Decision (p x)}
    (l : list trip) :
  StronglySorted Z.lt (id <$> l) → StronglySorted Z.lt (id <$> filter p l).
Proof.
  induction l as [|x l IH]; [done |].
  rewrite fmap_cons. intros Hs. apply StronglySorted_cons in Hs as [Hx Hl].
  destruct (decide (p x));
    [rewrite filter_cons_True by done | rewrite filter_cons_False by done];
    [|auto].
  rewrite fmap_cons. constructor; [auto |].
  rewrite Forall_forall in *. intros i Hi. apply Hx.
  apply list_elem_of_fmap in Hi as (y & -> & Hy).
  apply list_elem_of_filter in Hy as [_ Hy]. by apply list_elem_of_fmap_2.
Qed.

Lemma reachable_ascending {P : PyParse} (trips : list trip) :
  reachable trips → StronglySorted Z.lt (id <$> trips).
Proof.
  induction 1 as [|trips data _ IH|trips i data _ IH|trips i _ IH].
  - constructor.
  - destruct (create_trip_state trips data) as [-> | (t & Ht & ->)];
      [done |].
    rewrite fmap_app. apply StronglySorted_app_2; [| done |].
    + intros a b Ha Hb. apply list_elem_of_singleton in Hb as ->.
      pose proof (next_id_above trips) as Habove.
      rewrite Forall_forall in Habove. rewrite Ht. by apply Habove.
    + repeat constructor.
  - by rewrite update_trip_ids.
  - rewrite delete_trip_state. by apply ascending_filter.
Qed.

Lemma sort_key_id (t : trip) : sort_key "id" t = VInt (id t).
Proof. reflexivity. Qed.

Lemma py_lt_int (a b : Z) : py_lt (VInt a) (VInt b) = Ok (a <? b).
Proof.
  unfold py_lt. cbn [num_val]. f_equal.
  destruct (Z.ltb_spec a b) as [H | H].
  - apply Qltb_true. by rewrite <- Zlt_Qlt.
  - apply Qltb_false. by rewrite <- Zle_Qle.
Qed.

(** An ascending list is sorted already. *)
Lemma sort_asc_ascending (l : list trip) :
  StronglySorted Z.lt (id <$> l) → sort_asc (sort_key "id") l = Ok l.
Proof.
  induction l as [|x l IH]; [done |].
  rewrite fmap_cons. intros Hs. apply StronglySorted_cons in Hs as [Hx Hl].
  cbn [sort_asc]. rewrite (IH Hl). cbn [bind].
  destruct l as [|y l]; [done |].
  cbn [sort_insert]. rewrite !sort_key_id, py_lt_int.
  rewrite fmap_cons in Hx. apply Forall_cons in Hx as [Hxy _].
  destruct (Z.ltb_spec (id y) (id x)); [lia | done].
Qed.

(** Inserting an element larger than all the others appends it. *)
Lemma sort_insert_largest (x : trip) (l : list trip) :
  Forall (λ i, i < id x) (id <$> l) →
  sort_insert (sort_key "id") x l = Ok (l ++ [x]).
Proof.
  induction l as [|y l IH]; [done |].
  rewrite fmap_cons. intros H. apply Forall_cons in H as [Hy Hl].
  cbn [sort_insert]. rewrite !sort_key_id, py_lt_int.
  destruct (Z.ltb_spec (id y) (id x)); [|lia]. cbn [bind].
  by rewrite (IH Hl).
Qed.

(** A descending list is sorted into its reverse. *)
Lemma sort_asc_descending (l : list trip) :
  StronglySorted (flip Z.lt) (id <$> l) →
  sort_asc (sort_key "id") l = Ok (reverse l).
Proof.
  induction l as [|x l IH]; [done |].
  rewrite fmap_cons. intros Hs. apply StronglySorted_cons in Hs as [Hx Hl].
  cbn [sort_asc]. rewrite (IH Hl). cbn [bind]. rewrite reverse_cons.
  apply sort_insert_largest. rewrite Forall_forall in *. intros i Hi.
  apply Hx. apply list_elem_of_fmap in Hi as (y & -> & Hy).
  rewrite elem_of_reverse in Hy. by apply list_elem_of_fmap_2.
Qed.

(** ** Further properties *)

(** X1. In a state the handlers can produce, [get_trip] answers 404 for an
    id that no record has, and for the id of a stored record it answers 200
    with exactly that record. *)
Theorem get_trip_found_or_not {P : PyParse} (trips : list trip) :
  reachable trips →
  (∀ i, i ∉ id <$> trips →
        get_trip trips i = Resp 404 (BError msg_not_found)) ∧
  (∀ t, t ∈ trips → get_trip trips (id t) = Resp 200 (BTrip t)).
Proof.
  intros Hr. apply reachable_ids_ok in Hr as [Hnd _]. split.
  - intros i Hi. unfold get_trip. by rewrite find_id_None.
  - intros t Ht. unfold get_trip. by rewrite find_id_member.
Qed.

Lemma get_trip_found_or_not_witness :
  (∀ i, i ∉ id <$> two_trips →
        get_trip two_trips i = Resp 404 (BError msg_not_found)) ∧
  (∀ t, t ∈ two_trips → get_trip two_trips (id t) = Resp 200 (BTrip t)).
Proof.
  apply (get_trip_found_or_not (P := plain_decimal)).
  exact two_trips_reachable.
Defined.

(** X2. In every state the handlers can produce the ids are positive and
    strictly increase along the list: insertion order is id order. *)
Theorem reachable_ids_increase {P : PyParse} (trips : list trip) :
  reachable trips →
  StronglySorted Z.lt (id <$> trips) ∧ Forall (λ t, 1 ≤ id t) trips.
Proof.
  intros Hr. split; [by apply reachable_ascending |].
  apply reachable_ids_ok in Hr as [_ Hpos].
  rewrite Forall_fmap in Hpos. exact Hpos.
Qed.

Lemma reachable_ids_increase_witness :
  StronglySorted Z.lt (id <$> gap_trips) ∧ Forall (λ t, 1 ≤ id t) gap_trips.
Proof.
  apply (reachable_ids_increase (P := plain_decimal)).
  exact gap_trips_reachable.
Defined.

(** X3. In a state the handlers can produce, listing by ["id"] answers the
    collection in insertion order, and in the reverse of it when the
    descending order is asked for. *)
Theorem list_by_id_is_insertion_order {P : PyParse} (trips : list trip)
    (order : option string) :
  reachable trips →
  get_trips trips (Some "id") order
  = Resp 200 (BTrips (if descending order then reverse trips else trips)).
Proof.
  intros Hr. apply reachable_ascending in Hr.
  unfold get_trips. destruct trips as [|t0 ts]; [by destruct (descending _) |].
  cbn [negb andb String.eqb Ascii.eqb Bool.eqb].
  rewrite bool_decide_eq_true_2 by by apply trip_get_Some; compute_done.
  fold (descending order).
  change (λ x : trip, default VNone (trip_get "id" x)) with (sort_key "id").
  unfold py_sort. destruct (descending order).
  - rewrite sort_asc_descending.
    + simpl. by rewrite reverse_involutive.
    + rewrite fmap_reverse. by apply StronglySorted_reverse.
  - by rewrite sort_asc_ascending.
Qed.

Lemma list_by_id_is_insertion_order_witness :
  get_trips gap_trips (Some "id") (Some "DESC")
  = Resp 200
      (BTrips (if descending (Some "DESC") then reverse gap_trips
               else gap_trips)).
Proof.
  apply (list_by_id_is_insertion_order (P := plain_decimal)).
  exact gap_trips_reachable.
Defined.

(** X4. A trip that [create_trip] has just added is what [get_trip] answers
    for its id, whatever the collection was. *)
Theorem create_then_get {P : PyParse} (trips trips' : list trip)
    (data : payload) (t : trip) :
  create_trip trips data = (Resp 201 (BTrip t), trips') →
  get_trip trips' (id t) = Resp 200 (BTrip t).
Proof.
  intros H. apply create_trip_Created in H as [H ->].
  apply new_trip_Ok in H
    as (? & ? & ? & ? & ? & ? & ? & ? & _ & _ & _ & _ & _ & _ & _ & _ & ->).
  unfold get_trip. rewrite find_id_new; [done |]. apply next_id_above.
Qed.

Lemma create_then_get_witness :
  get_trip (gap_trips ++ [trip_rome 4]) (id (trip_rome 4))
  = Resp 200 (BTrip (trip_rome 4)).
Proof.
  apply (create_then_get (P := plain_decimal) gap_trips _ rome).
  vm_compute. reflexivity.
Defined.

Lemma find_id_first (l1 l2 : list trip) (t : trip) (i : Z) :
  i ∉ id <$> l1 → id t = i →
  find (λ x, id x =? i) (l1 ++ t :: l2) = Some t.
Proof.
  intros Hl1 Hid. induction l1 as [|x l1 IH].
  - simpl. by rewrite Hid, Z.eqb_refl.
  - rewrite fmap_cons in Hl1. apply not_elem_of_cons in Hl1 as [H1 H2].
    simpl. destruct (Z.eqb_spec (id x) i); [congruence | auto].
Qed.

Lemma find_id_filter_other (trips : list trip) (i j : Z) :
  i ≠ j →
  find (λ x, id x =? j) (filter (λ t, id t ≠ i) trips)
  = find (λ x, id x =? j) trips.
Proof.
  intros Hij. induction trips as [|x l IH]; [done |].
  destruct (decide (id x ≠ i)) as [Hx | Hx].
  - rewrite filter_cons_True by done. simpl. by rewrite IH.
  - rewrite filter_cons_False by done. simpl.
    destruct (Z.eqb_spec (id x) j); [|done].
    exfalso. apply Hx. congruence.
Qed.

Lemma find_id_modify_other (trips : list trip) (f : trip → trip) (i j : Z) :
  i ≠ j → (∀ t, id (f t) = id t) →
  find (λ x, id x =? j) (modify_first (λ t, id t =? i) f trips)
  = find (λ x, id x =? j) trips.
Proof.
  intros Hij Hf. induction trips as [|x l IH]; [done |].
  simpl. destruct (Z.eqb_spec (id x) i) as [Hx | Hx]; simpl.
  - rewrite Hf. destruct (Z.eqb_spec (id x) j); [congruence | done].
  - by rewrite IH.
Qed.

Lemma find_id_app_old (trips : list trip) (t : trip) (j : Z) :
  j ∈ id <$> trips →
  find (λ x, id x =? j) (trips ++ [t]) = find (λ x, id x =? j) trips.
Proof.
  induction trips as [|x l IH].
  - intros H. by apply elem_of_nil in H.
  - rewrite fmap_cons. intros H. simpl.
    destruct (Z.eqb_spec (id x) j) as [|Hne]; [done |].
    apply elem_of_cons in H as [H | H]; [congruence | auto].
Qed.

Lemma update_unknown_id (trips : list trip) (i : Z) (data : payload) :
  i ∉ id <$> trips →
  update_trip trips i data = (Resp 404 (BError msg_not_found), trips).
Proof. intros H. unfold update_trip. by rewrite find_id_None. Qed.

Lemma update_fields_id (data : payload) (t : trip) :
  id (update_fields data t) = id t.
Proof. by rewrite update_fields_unfold. Qed.

Lemma update_fields_twice (data : payload) (t : trip) :
  update_fields data (update_fields data t) = update_fields data t.
Proof.
  rewrite !update_fields_unfold. simpl.
  by destruct (data !! "destination"), (data !! "days"), (data !! "price"),
    (data !! "hotel"), (data !! "rating").
Qed.

(** X5. Whatever the list, [delete_trip] answers 404 exactly when no
    record has the id, and then the list it stores is the one it found; when
    some record has the id it answers 200. *)
Theorem delete_not_found_iff (trips : list trip) (i : Z) :
  ((delete_trip trips i).1 = Resp 404 (BError msg_not_found)
   ↔ i ∉ id <$> trips) ∧
  (i ∉ id <$> trips → (delete_trip trips i).2 = trips) ∧
  (i ∈ id <$> trips →
   (delete_trip trips i).1 = Resp 200 (BMessage msg_deleted)).
Proof.
  assert (Hin : i ∈ id <$> trips →
                (delete_trip trips i).1 = Resp 200 (BMessage msg_deleted)).
  { intros H. apply list_elem_of_fmap in H as (t & -> & Ht).
    unfold delete_trip.
    pose proof (length_filter_lt (λ x, id x ≠ id t) trips t Ht) as Hlt.
    destruct (Nat.eqb_spec (length (filter (λ x, id x ≠ id t) trips))
                (length trips)) as [Heq | _]; [|done].
    exfalso. assert (¬ id t ≠ id t) as Hn by (intros Hn; by apply Hn).
    specialize (Hlt Hn). lia. }
  assert (Hout : i ∉ id <$> trips →
                 delete_trip trips i
                 = (Resp 404 (BError msg_not_found), trips)).
  { intros H. unfold delete_trip. rewrite filter_id_absent by done.
    by rewrite Nat.eqb_refl. }
  split; [|split; [|done]].
  - split.
    + intros H404 Hi. rewrite (Hin Hi) in H404. discriminate.
    + intros Hi. by rewrite (Hout Hi).
  - intros Hi. by rewrite (Hout Hi).
Qed.

(** X6. Whatever the list (also with several records of one id), after
    [delete_trip] no record has the deleted id, the records with another
    id are all still there, and [get_trip] answers 404 for the deleted
    id. *)
Theorem delete_then_get (trips : list trip) (i : Z) :
  (i ∉ id <$> (delete_trip trips i).2) ∧
  (∀ t, id t ≠ i → t ∈ (delete_trip trips i).2 ↔ t ∈ trips) ∧
  get_trip (delete_trip trips i).2 i = Resp 404 (BError msg_not_found).
Proof.
  rewrite delete_trip_state.
  assert (Hgone : i ∉ id <$> filter (λ t, id t ≠ i) trips).
  { intros H. apply list_elem_of_fmap in H as (t & -> & Ht).
    apply list_elem_of_filter in Ht as [Hne _]. by apply Hne. }
  split; [done |]. split.
  - intros t Ht. rewrite list_elem_of_filter.
    split; [by intros [_ H] | by intros H].
  - unfold get_trip. by rewrite find_id_None.
Qed.

(** X7. A request about one id leaves what [get_trip] answers for any other
    id as it was: after a delete, after an update, and, for the ids in the
    collection, after a create. *)
Theorem other_ids_undisturbed {P : PyParse} (trips : list trip) (i j : Z)
    (data : payload) :
  (i ≠ j → get_trip (delete_trip trips i).2 j = get_trip trips j) ∧
  (i ≠ j → get_trip (update_trip trips i data).2 j = get_trip trips j) ∧
  (j ∈ id <$> trips →
   get_trip (create_trip trips data).2 j = get_trip trips j).
Proof.
  split; [|split].
  - intros Hij. rewrite delete_trip_state. unfold get_trip.
    by rewrite find_id_filter_other.
  - intros Hij. unfold update_trip, get_trip.
    destruct (find (λ t, id t =? i) trips); [|done]. simpl.
    rewrite find_id_modify_other; [done | done |].
    apply update_fields_id.
  - intros Hj. destruct (create_trip_state trips data) as [-> | (t & _ & ->)];
      [done |].
    unfold get_trip. by rewrite find_id_app_old.
Qed.

Lemma other_ids_undisturbed_witness :
  get_trip (delete_trip two_trips 1).2 2 = get_trip two_trips 2 ∧
  get_trip (update_trip two_trips 1 new_price).2 2 = get_trip two_trips 2 ∧
  get_trip (create_trip (P := plain_decimal) two_trips new_price).2 2
  = get_trip two_trips 2.
Proof.
  destruct (other_ids_undisturbed (P := plain_decimal) two_trips 1 2
              new_price) as (H1 & H2 & H3).
  split; [by apply H1 |]. split; [by apply H2 |]. apply H3. compute_done.
Defined.

(** X8. When some record has the id, what [update_trip] answers is what
    [get_trip] answers afterwards for that id. *)
Theorem update_then_get (trips : list trip) (i : Z) (data : payload) :
  i ∈ id <$> trips →
  get_trip (update_trip trips i data).2 i = (update_trip trips i data).1 ∧
  ∃ t, (update_trip trips i data).1 = Resp 200 (BTrip t) ∧ id t = i.
Proof.
  intros Hin.
  destruct (find_id_Some trips i Hin) as (l1 & t & l2 & -> & Hid & Hl1 & Hf).
  unfold update_trip. rewrite Hf. cbn [fst snd].
  rewrite modify_first_split by done. split.
  - unfold get_trip. rewrite find_id_first; [done | done |].
    by rewrite update_fields_id.
  - exists (update_fields data t). by rewrite update_fields_id.
Qed.

Lemma update_then_get_witness :
  get_trip (update_trip two_trips 2 new_price).2 2
  = (update_trip two_trips 2 new_price).1 ∧
  ∃ t, (update_trip two_trips 2 new_price).1 = Resp 200 (BTrip t) ∧ id t = 2.
Proof. apply update_then_get. compute_done. Defined.

(** X9. Sending the same update twice is the same as sending it once: the
    second request gives the same answer and leaves the collection as the
    first one left it. *)
Theorem update_twice (trips : list trip) (i : Z) (data : payload) :
  update_trip (update_trip trips i data).2 i data = update_trip trips i data.
Proof.
  destruct (decide (i ∈ id <$> trips)) as [Hin | Hout].
  - destruct (find_id_Some trips i Hin) as (l1 & t & l2 & -> & Hid & Hl1 & Hf).
    unfold update_trip at 2 3. rewrite Hf. cbn [snd].
    rewrite modify_first_split by done.
    unfold update_trip.
    rewrite find_id_first by (by rewrite ?update_fields_id).
    rewrite modify_first_split by (by rewrite ?update_fields_id).
    by rewrite update_fields_twice.
  - rewrite (update_unknown_id trips i data Hout). cbn [snd].
    by rewrite (update_unknown_id trips i data Hout).
Qed.

(** X10. An update whose body has none of the five fields (for instance
    only an ["id"]) answers what [get_trip] answers and changes nothing. *)
Theorem update_without_fields (trips : list trip) (i : Z) (data : payload) :
  (∀ f, f ∈ updatable → data !! f = None) →
  update_trip trips i data = (get_trip trips i, trips).
Proof.
  intros Hnone.
  assert (Hsame : ∀ t, update_fields data t = t).
  { intros t. rewrite update_fields_unfold.
    rewrite !Hnone by compute_done. by destruct t. }
  unfold update_trip, get_trip.
  destruct (find (λ t, id t =? i) trips) as [t|]; [|done].
  rewrite Hsame. f_equal.
  induction trips as [|x l IH]; [done |].
  simpl. destruct (id x =? i); [by rewrite Hsame | by rewrite IH].
Qed.

Lemma update_without_fields_witness :
  update_trip two_trips 2 {[ "id" := VInt 9 ]}
  = (get_trip two_trips 2, two_trips).
Proof.
  apply update_without_fields. unfold updatable. intros f H.
  repeat (apply elem_of_cons in H as [-> | H]; [by vm_compute |]).
  by apply elem_of_nil in H.
Defined.

(** X11. Two creates in a row get consecutive ids. *)
Theorem creates_in_a_row {P : PyParse} (trips trips1 trips2 : list trip)
    (data1 data2 : payload) (t1 t2 : trip) :
  create_trip trips data1 = (Resp 201 (BTrip t1), trips1) →
  create_trip trips1 data2 = (Resp 201 (BTrip t2), trips2) →
  id t2 = id t1 + 1 ∧ trips2 = trips ++ [t1; t2].
Proof.
  intros H1 H2.
  apply create_trip_Created in H1 as Hc1. destruct Hc1 as [Hn1 ->].
  apply create_trip_Created in H2 as Hc2. destruct Hc2 as [_ ->].
  split; [|by rewrite <- app_assoc].
  apply new_trip_Ok in Hn1
    as (? & ? & ? & ? & ? & ? & ? & ? & _ & _ & _ & _ & _ & _ & _ & _ & Ht1).
  assert (Hid1 : id t1 = _get_next_id trips) by by rewrite Ht1.
  destruct (next_id_of_created _ _ _ _ H2) as [_ Hm].
  destruct Hm as (m & Hin & Hmax & ->); [by destruct trips |].
  f_equal. pose proof (next_id_above trips) as Habove.
  rewrite Forall_forall in Habove. rewrite <- Hid1 in Habove.
  rewrite fmap_app in Hin, Hmax. apply elem_of_app in Hin as [Hin | Hin].
  - specialize (Habove _ Hin).
    assert (id t1 ≤ m); [|lia].
    apply Hmax. apply elem_of_app. right. left.
  - by apply list_elem_of_singleton in Hin.
Qed.

Lemma creates_in_a_row_witness :
  id (trip_rome 5) = id (trip_paris 4) + 1 ∧
  gap_trips ++ [trip_paris 4; trip_rome 5]
  = gap_trips ++ [trip_paris 4; trip_rome 5].
Proof.
  apply (creates_in_a_row (P := plain_decimal) gap_trips
           (gap_trips ++ [trip_paris 4]) _ paris rome);
    vm_compute; reflexivity.
Defined.

(** ** When [trips_stats] and [get_trips] raise *)

Lemma py_lt_Raise (a b : value) (e : exn) :
  py_lt a b = Raise e → e = TypeError.
Proof.
  unfold py_lt. destruct a; destruct b; simpl; try (by intros [= <-]); done.
Qed.

Lemma py_lt_Ok_not_None (a b : value) (r : bool) :
  py_lt a b = Ok r → a ≠ VNone ∧ b ≠ VNone.
Proof. destruct a; destruct b; done. Qed.

Lemma py_min_from_Raise (cur : value) (l : list value) (e : exn) :
  py_min_from cur l = Raise e → e = TypeError.
Proof.
  revert cur. induction l as [|x l IH]; intros cur; simpl; [done |].
  destruct (py_lt x cur) as [b|e'] eqn:E; simpl.
  - apply IH.
  - intros [= <-]. by eapply py_lt_Raise.
Qed.

Lemma py_max_from_Raise (cur : value) (l : list value) (e : exn) :
  py_max_from cur l = Raise e → e = TypeError.
Proof.
  revert cur. induction l as [|x l IH]; intros cur; simpl; [done |].
  destruct (py_lt cur x) as [b|e'] eqn:E; simpl.
  - apply IH.
  - intros [= <-]. by eapply py_lt_Raise.
Qed.

Lemma float_phase_Raise (l : list value) (e : exn) :
  float_phase l = Raise e → e = TypeError ∨ e = OverflowError.
Proof.
  induction l as [|v l IH]; simpl; [done |].
  destruct (as_number v) as [[z|f]|]; [| done |].
  - destruct (float_of_Z z) as [g|e'] eqn:E; cbn [bind]; [done |].
    intros [= <-]. right. by eapply float_of_Z_Raise.
  - intros [= <-]. by left.
Qed.

Lemma int_phase_Raise (acc : Z) (l : list value) (e : exn) :
  int_phase acc l = Raise e → e = TypeError ∨ e = OverflowError.
Proof.
  revert acc. induction l as [|v l IH]; intros acc; simpl; [done |].
  destruct (as_number v) as [[z|f]|]; [apply IH | |].
  - destruct (float_of_Z acc) as [g|e'] eqn:E; cbn [bind].
    + destruct (float_phase l) as [u|e'] eqn:E'; cbn [bind]; [done |].
      intros [= <-]. by eapply float_phase_Raise.
    + intros [= <-]. right. by eapply float_of_Z_Raise.
  - intros [= <-]. by left.
Qed.

Lemma float_phase_non_number (l : list value) :
  ¬ Forall is_number l → ∃ e, float_phase l = Raise e.
Proof.
  induction l as [|v l IH]; intros Hl.
  - exfalso. apply Hl. constructor.
  - simpl. destruct (as_number v) as [[z|f]|] eqn:Ev; [| |by eexists].
    + destruct (float_of_Z z); cbn [bind]; [|by eexists].
      apply IH. intros H. apply Hl. constructor; [|done].
      unfold is_number. by rewrite Ev.
    + apply IH. intros H. apply Hl. constructor; [|done].
      unfold is_number. by rewrite Ev.
Qed.

Lemma int_phase_non_number (acc : Z) (l : list value) :
  ¬ Forall is_number l → ∃ e, int_phase acc l = Raise e.
Proof.
  revert acc. induction l as [|v l IH]; intros acc Hl.
  - exfalso. apply Hl. constructor.
  - assert (Hrest : is_number v → ¬ Forall is_number l).
    { intros Hv H. apply Hl. by constructor. }
    simpl. destruct (as_number v) as [[z|f]|] eqn:Ev; [| |by eexists].
    + apply IH, Hrest. unfold is_number. by rewrite Ev.
    + destruct (float_of_Z acc); cbn [bind]; [|by eexists].
      destruct (float_phase_non_number l) as [e ->]; [|by eexists].
      apply Hrest. unfold is_number. by rewrite Ev.
Qed.

Section stats_errors.
Context {S : PySum}.

Lemma field_stat_Raise (l : list value) (e : exn) :
  l ≠ [] → field_stat l = Raise e → e = TypeError ∨ e = OverflowError.
Proof.
  intros Hne. destruct l as [|x l]; [done |].
  unfold field_stat, py_min, py_max, py_sum.
  destruct (py_min_from x l) as [mn|e'] eqn:Emin; cbn [bind].
  2: { intros [= <-]. left. by eapply py_min_from_Raise. }
  destruct (py_max_from x l) as [mx|e'] eqn:Emax; cbn [bind].
  2: { intros [= <-]. left. by eapply py_max_from_Raise. }
  destruct (int_phase 0 (x :: l)) as [r|e'] eqn:Esum; cbn [bind].
  2: { intros [= <-]. by eapply int_phase_Raise. }
  destruct r as [z|]; cbn [bind py_truediv]; [|done].
  destruct (int_truediv_outcome z (Z.of_nat (length (x :: l)))) as [-> | ->];
    cbn [bind]; [done |].
  intros [= <-]. by right.
Qed.

Lemma field_stat_non_number (l : list value) :
  l ≠ [] → ¬ Forall is_number l →
  field_stat l = Raise TypeError ∨ field_stat l = Raise OverflowError.
Proof.
  intros Hne Hl.
  destruct (field_stat l) as [s|e] eqn:E.
  - exfalso. destruct l as [|x l]; [done |]. revert E.
    unfold field_stat, py_min, py_max, py_sum.
    destruct (py_min_from x l); cbn [bind]; [|done].
    destruct (py_max_from x l); cbn [bind]; [|done].
    by destruct (int_phase_non_number 0 (x :: l) Hl) as [e ->].
  - destruct (field_stat_Raise _ _ Hne E) as [-> | ->]; [by left | by right].
Qed.
End stats_errors.

(** X12. On a non-empty collection in which some record holds something
    that is no number ([null] or a text) in [days], [price] or [rating],
    [trips_stats] does not answer: it lets a [TypeError] escape, or an
    [OverflowError] when a number too large for a float comes first. *)
Theorem stats_non_number_raises {S : PySum} (trips : list trip) :
  trips ≠ [] →
  ¬ Forall (λ t, is_number (days t) ∧ is_number (price t)
                 ∧ is_number (rating t)) trips →
  trips_stats trips = Unhandled TypeError
  ∨ trips_stats trips = Unhandled OverflowError.
Proof.
  intros Hne Hbad.
  assert (Hne' : ∀ f : trip → value, f <$> trips ≠ []).
  { intros f. by destruct trips. }
  unfold trips_stats. destruct trips as [|t0 ts] eqn:Et; [done |].
  rewrite <- Et in *. clear Et t0 ts.
  destruct (field_stat (days <$> trips)) as [d|e] eqn:Ed; cbn [bind].
  2: { destruct (field_stat_Raise _ _ (Hne' days) Ed) as [-> | ->];
         [by left | by right]. }
  destruct (field_stat (price <$> trips)) as [p|e] eqn:Ep; cbn [bind].
  2: { destruct (field_stat_Raise _ _ (Hne' price) Ep) as [-> | ->];
         [by left | by right]. }
  destruct (field_stat (rating <$> trips)) as [r|e] eqn:Er; cbn [bind].
  2: { destruct (field_stat_Raise _ _ (Hne' rating) Er) as [-> | ->];
         [by left | by right]. }
  exfalso. apply Hbad. apply Forall_forall. intros t Ht.
  assert (Hall : ∀ f : trip → value, ∀ s,
            field_stat (f <$> trips) = Ok s → is_number (f t)).
  { intros f s Hs. destruct (decide (Forall is_number (f <$> trips)))
      as [Hf | Hf].
    - rewrite Forall_fmap, Forall_forall in Hf. by apply Hf.
    - destruct (field_stat_non_number _ (Hne' f) Hf); congruence. }
  split; [by eapply Hall | split; by eapply Hall].
Qed.

Lemma stats_non_number_raises_witness :
  trips_stats (S := plain_sum) null_trips_rating = Unhandled TypeError
  ∨ trips_stats (S := plain_sum) null_trips_rating = Unhandled OverflowError.
Proof.
  apply stats_non_number_raises; [done |].
  intros H. apply Forall_cons in H as [_ H].
  apply Forall_cons in H as [(_ & _ & [x Hx]) _]. discriminate.
Defined.

Section sort_outcomes.
Context {A : Type} (key : A → value).

Lemma sort_insert_Raise (x : A) (l : list A) (e : exn) :
  sort_insert key x l = Raise e → e = TypeError.
Proof.
  induction l as [|y l IH]; simpl; [done |].
  destruct (py_lt (key y) (key x)) as [[|]|e'] eqn:E; cbn [bind].
  - destruct (sort_insert key x l); [done |]. cbn [bind].
    intros [= <-]. by apply IH.
  - done.
  - intros [= <-]. by eapply py_lt_Raise.
Qed.

Lemma sort_asc_Raise (l : list A) (e : exn) :
  sort_asc key l = Raise e → e = TypeError.
Proof.
  induction l as [|x l IH]; simpl; [done |].
  destruct (sort_asc key l) as [s|e']; cbn [bind].
  - apply sort_insert_Raise.
  - intros [= <-]. by apply IH.
Qed.

Lemma sort_insert_Ok (x : A) (l out : list A) :
  sort_insert key x l = Ok out →
  out ≡ₚ x :: l ∧
  (∀ y, head l = Some y → key y ≠ VNone ∧ key x ≠ VNone).
Proof.
  revert out. induction l as [|y l IH]; intros out; simpl.
  - intros [= <-]. split; [done | by intros y [=]].
  - destruct (py_lt (key y) (key x)) as [b|e] eqn:E; cbn [bind]; [|done].
    apply py_lt_Ok_not_None in E. intros H. split; [|by intros ? [= <-]].
    destruct b.
    + destruct (sort_insert key x l) as [r|]; [|done]. cbn [bind] in H.
      injection H as <-. destruct (IH r eq_refl) as [Hperm _].
      rewrite Hperm. apply perm_swap.
    + by injection H as <-.
Qed.

Lemma sort_asc_Ok (l out : list A) :
  sort_asc key l = Ok out →
  out ≡ₚ l ∧ ((length l ≤ 1)%nat ∨ Forall (λ x, key x ≠ VNone) l).
Proof.
  revert out. induction l as [|x l IH]; intros out; simpl.
  - intros [= <-]. split; [done | left; lia].
  - destruct (sort_asc key l) as [s|] eqn:Es; [|done]. cbn [bind].
    intros Hins. destruct (IH s eq_refl) as [Hperm Hclass].
    destruct (sort_insert_Ok _ _ _ Hins) as [Hperm' Hhead].
    split; [by rewrite Hperm', Hperm |].
    destruct s as [|y s].
    { apply Permutation_nil_l in Hperm as <-. left. simpl. lia. }
    destruct (Hhead y eq_refl) as [Hy Hx].
    assert (Hyl : y ∈ l) by (rewrite <- Hperm; left).
    right. constructor; [done |].
    destruct Hclass as [Hlen | Hall]; [|done].
    destruct l as [|y' [|? ?]];
      [by apply elem_of_nil in Hyl | | simpl in Hlen; lia].
    apply list_elem_of_singleton in Hyl as <-. by repeat constructor.
Qed.

Lemma py_sort_Raise (reversed : bool) (l : list A) (e : exn) :
  py_sort key reversed l = Raise e → e = TypeError.
Proof.
  unfold py_sort. destruct reversed.
  - destruct (sort_asc key (reverse l)) as [s|e'] eqn:E; cbn [bind]; [done |].
    intros [= <-]. by eapply sort_asc_Raise.
  - apply sort_asc_Raise.
Qed.

Lemma py_sort_Ok (reversed : bool) (l out : list A) :
  py_sort key reversed l = Ok out →
  out ≡ₚ l ∧ ((length l ≤ 1)%nat ∨ Forall (λ x, key x ≠ VNone) l).
Proof.
  unfold py_sort. destruct reversed; [|apply sort_asc_Ok].
  destruct (sort_asc key (reverse l)) as [s|] eqn:E; cbn [bind]; [|done].
  intros [= <-]. apply sort_asc_Ok in E as [Hperm Hclass]. split.
  - by rewrite reverse_Permutation, Hperm, reverse_Permutation.
  - rewrite length_reverse in Hclass.
    by rewrite !reverse_Permutation in Hclass.
Qed.
End sort_outcomes.

(** With a sort field that is a key of the records, [get_trips] is the
    sort of the whole list. *)
Lemma get_trips_sorting (trips : list trip) (s : string)
    (order : option string) :
  s ∈ trip_fields →
  get_trips trips (Some s) order
  = match py_sort (sort_key s) (descending order) trips with
    | Ok out => Resp 200 (BTrips out)
    | Raise e => Unhandled e
    end.
Proof.
  intros Hs. unfold get_trips. destruct trips as [|t0 ts].
  - unfold py_sort. by destruct (descending order).
  - apply trip_field_not_empty in Hs as Hne.
    apply String.eqb_neq in Hne. rewrite Hne.
    rewrite bool_decide_eq_true_2 by by apply trip_get_Some.
    reflexivity.
Qed.

(** X13. With a sort field that is a key of the records, [get_trips]
    answers a collection of at most one record as it is, whatever the key
    is; with two records or more of which one has [null] as its key it lets
    a [TypeError] escape. *)
Theorem list_raises_on_null_key (trips : list trip) (s : string)
    (order : option string) :
  s ∈ trip_fields →
  ((length trips ≤ 1)%nat →
   get_trips trips (Some s) order = Resp 200 (BTrips trips)) ∧
  ((2 ≤ length trips)%nat →
   (∃ t, t ∈ trips ∧ sort_key s t = VNone) →
   get_trips trips (Some s) order = Unhandled TypeError).
Proof.
  intros Hs. rewrite (get_trips_sorting _ _ _ Hs). split.
  - intros Hlen. destruct trips as [|t [|? ?]]; [| |simpl in Hlen; lia];
      unfold py_sort; by destruct (descending order).
  - intros Hlen (t & Ht & Hnone).
    destruct (py_sort (sort_key s) (descending order) trips) as [out|e] eqn:E.
    + apply py_sort_Ok in E as [_ [H | H]]; [lia |].
      rewrite Forall_forall in H. by destruct (H t Ht).
    + by rewrite (py_sort_Raise _ _ _ _ E).
Qed.

Lemma list_raises_on_null_key_witness :
  get_trips [trip_paris 1] (Some "rating") None
  = Resp 200 (BTrips [trip_paris 1]) ∧
  get_trips null_trips_rating (Some "rating") None = Unhandled TypeError.
Proof.
  split.
  - apply (list_raises_on_null_key [trip_paris 1]); [compute_done |].
    simpl. lia.
  - apply (list_raises_on_null_key null_trips_rating); [compute_done | ..].
    + simpl. lia.
    + eexists. split; [right; left | reflexivity].
Defined.

(** X14. Whatever the sort field and the order, [get_trips] either answers
    200 with the records of the collection, each exactly once, in some
    order, or lets a [TypeError] escape. *)
Theorem list_answers_all_records (trips : list trip)
    (sort order : option string) :
  (∃ out, get_trips trips sort order = Resp 200 (BTrips out) ∧ out ≡ₚ trips)
  ∨ get_trips trips sort order = Unhandled TypeError.
Proof.
  destruct sort as [s|]; [|left; by exists trips].
  destruct (decide (s ∈ trip_fields)) as [Hs | Hs].
  - rewrite (get_trips_sorting _ _ _ Hs).
    destruct (py_sort (sort_key s) (descending order) trips) as [out|e] eqn:E.
    + left. exists out. split; [done |]. by apply py_sort_Ok in E as [E _].
    + right. by rewrite (py_sort_Raise _ _ _ _ E).
  - left. exists trips. split; [|done].
    unfold get_trips. destruct trips as [|t0 ts]; [done |].
    rewrite (trip_get_None s t0) by done. by rewrite andb_false_r.
Qed.

(** X15. [create_trip] answers 400 or 201, or lets the [TypeError],
    [ValueError] or [OverflowError] of a coercion escape; the check of the
    required fields keeps the look-ups [data["..."]] from raising
    [KeyError]. It stores either the list it found or that list with the
    answered trip appended. *)
Theorem create_outcomes {P : PyParse} (trips : list trip) (data : payload) :
  (∃ msg, create_trip trips data = (Resp 400 (BError msg), trips))
  ∨ (∃ t, create_trip trips data = (Resp 201 (BTrip t), trips ++ [t]))
  ∨ create_trip trips data = (Unhandled TypeError, trips)
  ∨ create_trip trips data = (Unhandled ValueError, trips)
  ∨ create_trip trips data = (Unhandled OverflowError, trips).
Proof.
  unfold create_trip. case_decide; [left; by eexists |].
  destruct (first_missing data required) as [f|] eqn:E;
    [left; by eexists |].
  rewrite first_missing_None in E.
  destruct (E "destination") as [dest H1]; [compute_done |].
  destruct (E "days") as [dv H2]; [compute_done |].
  destruct (E "price") as [pv H3]; [compute_done |].
  destruct (E "hotel") as [h H4]; [compute_done |].
  destruct (E "rating") as [rv H5]; [compute_done |].
  unfold new_trip, py_getitem. rewrite H1, H2, H3, H4, H5. cbn [bind].
  destruct (py_int dv) as [d|e] eqn:Ed; cbn [bind].
  2: { right. right.
       destruct (py_int_Raise _ _ Ed) as [-> | [-> | ->]]; tauto. }
  destruct (py_float pv) as [p|e] eqn:Ep; cbn [bind].
  2: { right. right.
       destruct (py_float_Raise _ _ Ep) as [-> | [-> | ->]]; tauto. }
  destruct (py_float rv) as [r|e] eqn:Er; cbn [bind].
  2: { right. right.
       destruct (py_float_Raise _ _ Er) as [-> | [-> | ->]]; tauto. }
  right. left. by eexists.
Qed.
